(** * main.py: a chat front end over a CSV file loaded into SQLite

    A shallow embedding of [src/main.py]: the column normalizer [_clean],
    the importer [import_csv], the readiness check [db_ready], the query
    executor [run_sql_query] and the tool loop [chat], with the properties
    of the specification stated against them. *)

From Stdlib Require Import ZArith NArith Lia Ascii DecimalString.
From stdpp Require Import base option list strings gmap.

Local Open Scope N_scope.

(** ** Python strings

    A Python [str] is a sequence of Unicode code points. *)

Abbreviation pystr := (list N).

(** An ASCII literal of the source, as code points. *)
Fixpoint lit (s : string) : pystr :=
  match s with
  | EmptyString => []
  | String a s' => N_of_ascii a :: lit s'
  end.

Definition SPACE : N := 32.
Definition HYPHEN : N := 45.
Definition PERIOD : N := 46.
Definition UNDERSCORE : N := 95.
Definition TAB : N := 9.
Definition NEWLINE : N := 10.

(** [str.isspace] on one code point: the code points CPython's
    [_PyUnicode_IsWhitespace] accepts; [str.strip()] with no argument
    removes exactly these. *)
Definition isspace (c : N) : bool :=
  ((9 <=? c) && (c <=? 13)) || ((28 <=? c) && (c <=? 32))
  || (c =? 133) || (c =? 160) || (c =? 5760)
  || ((8192 <=? c) && (c <=? 8202))
  || (c =? 8232) || (c =? 8233) || (c =? 8239) || (c =? 8287) || (c =? 12288).

(** [str.lstrip()], [str.rstrip()], [str.strip()]. *)
Fixpoint lstrip (s : pystr) : pystr :=
  match s with
  | [] => []
  | c :: s' => if isspace c then lstrip s' else s
  end.

Definition rstrip (s : pystr) : pystr := reverse (lstrip (reverse s)).

Definition strip (s : pystr) : pystr := rstrip (lstrip s).

(** [s.replace(old, new)] for a one-character [old]: every occurrence of
    [old] becomes the string [new]. *)
Definition replace (old : N) (new : pystr) (s : pystr) : pystr :=
  flat_map (fun c => if c =? old then new else [c]) s.

(** [s.startswith(prefix)]. *)
Fixpoint startswith (s prefix : pystr) : bool :=
  match prefix, s with
  | [], _ => true
  | p :: prefix', c :: s' => (c =? p) && startswith s' prefix'
  | _ :: _, [] => false
  end.

(** [sep.join(parts)]. *)
Fixpoint join (sep : pystr) (parts : list pystr) : pystr :=
  match parts with
  | [] => []
  | [p] => p
  | p :: rest => p ++ sep ++ join sep rest
  end.

(** [str(n)] for a non-negative and for any integer. *)
Definition str_of_nat (n : nat) : pystr :=
  lit (NilZero.string_of_uint (Nat.to_uint n)).

Definition str_of_Z (z : Z) : pystr :=
  lit (NilZero.string_of_int (Z.to_int z)).

(** ** Column Normalizer *)

(** [_clean(col)]: [col.strip()], then [.replace] of each space by an
    underscore, of each hyphen by an underscore, and of each period by the
    empty string. *)
Definition _clean (col : pystr) : pystr :=
  replace PERIOD [] (replace HYPHEN [UNDERSCORE] (replace SPACE [UNDERSCORE] (strip col))).

(** A string is trimmed when it has no whitespace at either end. *)
Definition trimmed (s : pystr) : Prop := strip s = s.

(** The first and the last character of a string, when it has one. *)
Definition first_char (s : pystr) : option N := head s.
Definition last_char (s : pystr) : option N := last s.

(** ** Exceptions and results

    The exception classes the program's [except] clauses tell apart, each
    with the text [str(exc)] gives. *)
Inductive exn :=
| sqlite3_Error (msg : pystr)    (* sqlite3.Error and its subclasses *)
| csv_Error (msg : pystr)        (* csv.Error *)
| StopIteration
| TypeError (msg : pystr)
| OtherException (msg : pystr).  (* any class outside the four above *)

(** What evaluating a Python expression gives: a value, or a raised
    exception. *)
Inductive result (A : Type) :=
| Return (a : A)
| Raise (e : exn).
Arguments Return {A} a.
Arguments Raise {A} e.

#[global] Instance result_ret : MRet result := fun A a => Return a.
#[global] Instance result_bind : MBind result := fun A B f r =>
  match r with
  | Return a => f a
  | Raise e => Raise e
  end.

(** A list comprehension whose element expression can raise. *)
Fixpoint mapR {A B} (f : A -> result B) (l : list A) : result (list B) :=
  match l with
  | [] => Return []
  | a :: l' =>
      match f a with
      | Raise e => Raise e
      | Return b =>
          match mapR f l' with
          | Raise e => Raise e
          | Return bs => Return (b :: bs)
          end
      end
  end.

(** ** Values, rows and their JSON text *)

(** The Python values the sqlite3 module hands back for a column. A REAL is
    kept as the text [json.dumps] prints for it: [float.__repr__] for a
    finite value, [NaN], [Infinity] or [-Infinity] otherwise. *)
Inductive value :=
| VNull
| VInt (z : Z)
| VReal (repr : pystr)
| VText (s : pystr)
| VBlob (b : list N).

(** A Python [dict] with string keys: its items in insertion order. *)
Abbreviation pydict := (list (pystr * value)).

(** [d[k] = v]: replaces the value of a key already present, in place, and
    appends a new key. *)
Fixpoint dict_set (k : pystr) (v : value) (d : pydict) : pydict :=
  match d with
  | [] => [(k, v)]
  | (k', v') :: d' =>
      if decide (k = k') then (k', v) :: d' else (k', v') :: dict_set k v d'
  end.

(** [dict(pairs)]. *)
Definition dict (pairs : list (pystr * value)) : pydict :=
  fold_left (fun d kv => dict_set kv.1 kv.2 d) pairs [].

(** [zip(a, b)] stops at the shorter argument. *)
Definition zip {A B} (a : list A) (b : list B) : list (A * B) := combine a b.

Definition QUOTE : N := 34.
Definition BACKSLASH : N := 92.

Definition hex_digit (d : N) : N := if d <? 10 then 48 + d else 87 + d.

(** ['\\u{0:04x}'.format(n)] *)
Definition u_escape (n : N) : pystr :=
  [BACKSLASH; 117; hex_digit (n / 4096 mod 16); hex_digit (n / 256 mod 16);
   hex_digit (n / 16 mod 16); hex_digit (n mod 16)].

(** [json.encoder.py_encode_basestring_ascii] on one code point
    ([ensure_ascii] is left at its default, true). *)
Definition escape_char (c : N) : pystr :=
  if c =? QUOTE then [BACKSLASH; QUOTE]
  else if c =? BACKSLASH then [BACKSLASH; BACKSLASH]
  else if c =? 10 then [BACKSLASH; 110]
  else if c =? 13 then [BACKSLASH; 114]
  else if c =? 9 then [BACKSLASH; 116]
  else if c =? 12 then [BACKSLASH; 102]
  else if c =? 8 then [BACKSLASH; 98]
  else if (32 <=? c) && (c <=? 126) then [c]
  else if c <? 65536 then u_escape c
  else
    let n := c - 65536 in
    u_escape (N.lor 55296 (N.land (N.shiftr n 10) 1023))
    ++ u_escape (N.lor 56320 (N.land n 1023)).

Definition json_str (s : pystr) : pystr :=
  [QUOTE] ++ flat_map escape_char s ++ [QUOTE].

(** [json.dumps] of one column value; [bytes] is not serializable. *)
Definition json_value (v : value) : result pystr :=
  match v with
  | VNull => Return (lit "null")
  | VInt z => Return (str_of_Z z)
  | VReal repr => Return repr
  | VText s => Return (json_str s)
  | VBlob _ => Raise (TypeError (lit "Object of type bytes is not JSON serializable"))
  end.

Definition indent (level : nat) : pystr := List.repeat SPACE (2 * level).

(** One [key: value] item of a dict, and a dict, at nesting depth [level]
    under [indent=2]. *)
Definition json_item (kv : pystr * value) : result pystr :=
  v ← json_value kv.2; Return (json_str kv.1 ++ lit ": " ++ v).

Definition json_dict (level : nat) (d : pydict) : result pystr :=
  items ← mapR json_item d;
  Return (match items with
          | [] => lit "{}"
          | _ => lit "{" ++ [NEWLINE] ++ indent (S level)
                 ++ join (lit "," ++ [NEWLINE] ++ indent (S level)) items
                 ++ [NEWLINE] ++ indent level ++ lit "}"
          end).

(** [json.dumps(rows, indent=2)] for a list of dicts. *)
Definition json_dumps (rows : list pydict) : result pystr :=
  items ← mapR (json_dict 1) rows;
  Return (match items with
          | [] => lit "[]"
          | _ => lit "[" ++ [NEWLINE] ++ indent 1
                 ++ join (lit "," ++ [NEWLINE] ++ indent 1) items
                 ++ [NEWLINE] ++ lit "]"
          end).

(** [a or b] on strings: [a] when it is non-empty, else [b]. *)
Definition py_or (a b : pystr) : pystr :=
  match a with
  | [] => b
  | _ => a
  end.

(** ** The store *)

(** An entry of the catalog [sqlite_master]: a table with its column names
    and rows, or an object of another type (index, view, trigger). *)
Inductive schema_object :=
| TableObj (name : pystr) (columns : list pystr) (rows : list (list value))
| OtherObj (type name : pystr).

Abbreviation Db := (list schema_object).

(** The file at [DATABASE]: a database, or a file SQLite cannot use, on
    which every statement raises [sqlite3.DatabaseError] with [msg]. *)
Inductive store_file :=
| Database (db : Db)
| Unusable (msg : pystr).

(** Whether [sqlite_master] has a row with [type='table'] and this name. *)
Definition has_table (db : Db) (name : pystr) : bool :=
  existsb (fun o => match o with
                    | TableObj n _ _ => bool_decide (n = name)
                    | OtherObj _ _ => false
                    end) db.

(** What one statement does: it raises and leaves the database as it was,
    or it gives a cursor ([description], the rows to fetch) and the database
    after it, having changed [changes] rows. *)
Inductive exec_result :=
| ExecRaise (e : exn)
| ExecOk (db' : Db) (description : option (list pystr))
         (fetched : list (list value)) (changes : nat).

Definition CATALOG_QUERY : pystr :=
  lit "SELECT 1 FROM sqlite_master WHERE type='table' AND name=?".

(** The SQL engine, which is SQLite's and not the program's: [execute] runs
    one statement with its bound parameters, [executescript] runs a script
    statement by statement in autocommit mode and gives the database it
    reached, the rows changed and the exception that stopped it, if any.
    The statements are opaque to the program but for the catalog query of
    [db_ready], whose meaning is fixed here. *)
Record Engine := {
  execute : Db -> pystr -> list value -> exec_result;
  executescript : Db -> pystr -> Db * nat * option exn;
  execute_catalog : forall db name,
    execute db CATALOG_QUERY [VText name]
    = ExecOk db (Some [lit "1"])
        (if has_table db name then [[VInt 1]] else []) 0
}.

(** ** Source files *)

(** What [csv.reader] yields next on a file: a record, or an exception
    ([csv.Error], [UnicodeDecodeError]) that ends the iteration. A file with
    no item is an empty file. *)
Inductive rdr_item :=
| Yield (fields : list pystr)
| Fault (e : exn).

(** A file on disk: text, by the items a reader yields on it, or something
    [open] raises on (a directory, a file without read permission). *)
Inductive source_file :=
| Text (items : list rdr_item)
| Unopenable (e : exn).

(** A [pathlib.Path] with its [str()] and its [.name]. *)
Record Path := { path_str : pystr; path_name : pystr }.

(** ** The conversation *)

(** A tool invocation of the agent: [call["id"]] and
    [json.loads(call["function"]["arguments"])["query"]], [None] when that
    expression raises. *)
Record ToolCall := { call_id : pystr; call_query : option pystr }.

(** The agent's message: [msg["content"]], which can be [None], and
    [msg["tool_calls"]], [None] when the key is absent. *)
Record AgentMessage := {
  content : option pystr;
  tool_calls : option (list ToolCall)
}.

Inductive Message :=
| SystemMsg (text : pystr)
| UserMsg (text : pystr)
| AssistantMsg (m : AgentMessage)
| ToolMsg (tool_call_id name text : pystr).

(** The external agent: the answer of [openai.ChatCompletion.create] to a
    transcript, [rsp["choices"][0]["message"]], or the exception raised. *)
Abbreviation Agent := (list Message -> result AgentMessage).

(** ** The world the program runs in *)

Inductive level := INFO | WARNING | ERROR.

Record World := {
  csv_files : gmap pystr source_file;  (* the files other than [DATABASE] *)
  database : option store_file;        (* the file at [DATABASE], if any *)
  log : list (level * pystr);          (* the records logged so far *)
  stdout : list pystr;                 (* what [print] wrote so far *)
  requests : list (list Message)       (* the transcripts sent to the agent *)
}.

Definition set_database (f : store_file) (w : World) : World :=
  {| csv_files := csv_files w; database := Some f; log := log w;
     stdout := stdout w; requests := requests w |}.

Definition add_log (l : level) (msg : pystr) (w : World) : World :=
  {| csv_files := csv_files w; database := database w;
     log := log w ++ [(l, msg)];
     stdout := stdout w; requests := requests w |}.

Definition add_stdout (text : pystr) (w : World) : World :=
  {| csv_files := csv_files w; database := database w; log := log w;
     stdout := stdout w ++ [text]; requests := requests w |}.

Definition add_request (msgs : list Message) (w : World) : World :=
  {| csv_files := csv_files w; database := database w; log := log w;
     stdout := stdout w; requests := requests w ++ [msgs] |}.

(** A Python statement: it changes the world and returns or raises. *)
Definition M (A : Type) : Type := World -> result A * World.

#[global] Instance M_ret : MRet M := fun A a w => (Return a, w).
#[global] Instance M_bind : MBind M := fun A B f m w =>
  match m w with
  | (Return a, w') => f a w'
  | (Raise e, w') => (Raise e, w')
  end.

Definition lift {A} (r : result A) : M A := fun w => (r, w).
Definition raise {A} (e : exn) : M A := lift (Raise e).
Definition modify (f : World -> World) : M unit := fun w => (Return tt, f w).
Definition logging (l : level) (msg : pystr) : M unit := modify (add_log l msg).

(** [try: body except ...: handler]: [handler e] is [None] for an exception
    no [except] clause matches, which then propagates. *)
Definition try_except {A} (body : M A) (handler : exn -> option (M A)) : M A :=
  fun w =>
    match body w with
    | (Return a, w') => (Return a, w')
    | (Raise e, w') =>
        match handler e with
        | Some h => h w'
        | None => (Raise e, w')
        end
    end.

(** ** Connections *)

Definition DATABASE : Path :=
  {| path_str := lit "database.db"; path_name := lit "database.db" |}.
Definition TABLE : pystr := lit "freelancer_earnings_bd".

(** A [sqlite3.Connection]: the database as this connection sees it, with
    its uncommitted changes, and [total_changes], the rows changed since it
    was opened. *)
Record Connection := { conn_file : store_file; total_changes : nat }.

(** [sqlite3.connect(DATABASE)]: opens the file, creating an empty database
    when there is none. A path the module cannot open at all, such as a
    directory, is outside the worlds described here. *)
Definition connect : M Connection := fun w =>
  match database w with
  | Some f => (Return {| conn_file := f; total_changes := 0 |}, w)
  | None => (Return {| conn_file := Database []; total_changes := 0 |},
             set_database (Database []) w)
  end.

(** [db.commit()]: the connection's view becomes the file's content. *)
Definition commit (c : Connection) : M unit :=
  modify (fun w => match conn_file c with
                   | Database db => set_database (Database db) w
                   | Unusable _ => w
                   end).

(** [with sqlite3.connect(DATABASE) as db: body]: commits when the body
    returns; when it raises, rolls back, which leaves the file as of the
    last commit, and the exception propagates. The connection is not
    closed and stays readable after the block. *)
Definition with_connection {A} (body : Connection -> M (A * Connection))
  : M (A * Connection) :=
  c ← connect;
  '(a, c') ← body c;
  _ ← commit c';
  mret (a, c').

Section Program.

Variable eng : Engine.

(** [str.upper], the Unicode case mapping of the interpreter. *)
Variable upper : pystr -> pystr.

(** [db.execute(sql, params)]: the cursor's [description] and rows. *)
Definition conn_execute (c : Connection) (sql : pystr) (params : list value)
  : result (Connection * (option (list pystr) * list (list value))) :=
  match conn_file c with
  | Unusable msg => Raise (sqlite3_Error msg)
  | Database db =>
      match execute eng db sql params with
      | ExecRaise e => Raise e
      | ExecOk db' description fetched changes =>
          Return ({| conn_file := Database db';
                     total_changes := total_changes c + changes |},
                  (description, fetched))
      end
  end.

(** [db.executescript(script)]: each statement of the script is committed as
    it runs, so what ran before a failing statement stays in the file. *)
Definition conn_executescript (c : Connection) (script : pystr) : M Connection :=
  match conn_file c with
  | Unusable msg => raise (sqlite3_Error msg)
  | Database db =>
      let '(db', changes, failure) := executescript eng db script in
      _ ← modify (set_database (Database db'));
      match failure with
      | Some e => raise e
      | None => mret {| conn_file := Database db';
                        total_changes := total_changes c + changes |}
      end
  end.

(** [db.executemany(sql, rdr)]: one execution per record the reader yields;
    the reader is consumed as the statement runs. *)
Fixpoint conn_executemany (c : Connection) (sql : pystr) (rdr : list rdr_item)
  : result Connection :=
  match rdr with
  | [] => Return c
  | Fault e :: _ => Raise e
  | Yield fields :: rdr' =>
      match conn_execute c sql (map VText fields) with
      | Raise e => Raise e
      | Return (c', _) => conn_executemany c' sql rdr'
      end
  end.

(** ** Dataset Importer *)

(** [next(rdr)] *)
Definition next (rdr : list rdr_item) : result (list pystr * list rdr_item) :=
  match rdr with
  | [] => Raise StopIteration
  | Fault e :: _ => Raise e
  | Yield fields :: rdr' => Return (fields, rdr')
  end.

(** [csv_file.open(encoding="utf-8")] *)
Definition open (f : source_file) : result (list rdr_item) :=
  match f with
  | Text items => Return items
  | Unopenable e => Raise e
  end.

Definition import_csv (csv_file : Path) : M bool := fun w =>
  match csv_files w !! path_str csv_file with
  | None =>
      (_ ← logging ERROR (lit "CSV not found: " ++ path_str csv_file);
       mret false) w
  | Some file =>
      try_except
        (fh ← lift (open file);
         '(_, db) ← with_connection (fun db =>
            '(first, rdr) ← lift (next fh);
            let header := map _clean first in
            let cols := join (lit ", ")
                          (map (fun c => [QUOTE] ++ c ++ [QUOTE]) header) in
            db ← conn_executescript db
                   (lit "DROP TABLE IF EXISTS " ++ [QUOTE] ++ TABLE ++ [QUOTE] ++ lit ";"
                    ++ lit "CREATE TABLE " ++ [QUOTE] ++ TABLE ++ [QUOTE]
                    ++ lit " (" ++ cols ++ lit ");");
            let placeholders := join (lit ", ") (map (fun _ => lit "?") header) in
            db ← lift (conn_executemany db
                   (lit "INSERT INTO " ++ [QUOTE] ++ TABLE ++ [QUOTE] ++ lit " ("
                    ++ cols ++ lit ") VALUES (" ++ placeholders ++ lit ")") rdr);
            mret (tt, db));
         _ ← logging INFO (lit "Imported " ++ path_name csv_file ++ lit " into "
                           ++ path_str DATABASE ++ lit " ("
                           ++ str_of_nat (total_changes db) ++ lit " rows)");
         mret true)
        (fun exc =>
           match exc with
           | csv_Error msg | sqlite3_Error msg =>
               Some (_ ← logging ERROR (lit "Import failed: " ++ msg); mret false)
           | _ => None
           end) w
  end.

(** ** Store Readiness Check *)

Definition db_ready : M bool := fun w =>
  match database w with
  | None => (Return false, w)
  | Some _ =>
      try_except
        ('(found, _) ← with_connection (fun db =>
            '(db, cur) ← lift (conn_execute db CATALOG_QUERY [VText TABLE]);
            (* cur.fetchone() is not None *)
            mret (match cur.2 with [] => false | _ :: _ => true end, db));
         mret found)
        (fun exc =>
           match exc with
           | sqlite3_Error msg =>
               Some (_ ← logging ERROR (lit "DB check failed: " ++ msg); mret false)
           | _ => None
           end) w
  end.

(** ** Query Executor *)

(** [[dict(zip([c[0] for c in cur.description], r)) for r in cur]]: the names
    are read off [cur.description] once per row, which raises when it is
    [None]. *)
Definition rows_of (cur : option (list pystr) * list (list value))
  : result (list pydict) :=
  mapR (fun r =>
          match cur.1 with
          | None => Raise (TypeError (lit "'NoneType' object is not iterable"))
          | Some names => Return (dict (zip names r))
          end) cur.2.

Definition run_sql_query (query : pystr) : M pystr :=
  ready ← db_ready;
  if negb ready then mret (lit "Database not initialised.")
  else
    try_except
      ('(text, _) ← with_connection (fun db =>
          '(db, cur) ← lift (conn_execute db query []);
          if startswith (upper (lstrip query)) (lit "SELECT") then
            rows ← lift (rows_of cur);
            text ← lift (json_dumps (take 20 rows));
            mret (py_or text (lit "No rows."), db)
          else
            _ ← commit db;
            mret (lit "OK (" ++ str_of_nat (total_changes db) ++ lit " changes)", db));
       mret text)
      (fun exc =>
         match exc with
         | sqlite3_Error msg => Some (mret (lit "SQL error: " ++ msg))
         | _ => None
         end).

(** ** Tool-Mediated Chat Loop *)

Variable agent : Agent.

(** [openai.api_key] *)
Variable api_key : pystr.

Definition PROMPT : pystr :=
  lit "Assistant for freelance DB. Use run_sql_query on table '" ++ TABLE ++ lit "'.".

(** [for call in msg["tool_calls"]: ...]: runs the calls in order, appending
    one tool message per call to the transcript. The transcript reached is
    returned also when a call raises. *)
Fixpoint run_tool_calls (calls : list ToolCall) (msgs : list Message)
  : World -> result unit * list Message * World := fun w =>
  match calls with
  | [] => (Return tt, msgs, w)
  | call :: calls' =>
      match call_query call with
      | None => (Raise (OtherException (lit "'query'")), msgs, w)
      | Some sql =>
          match run_sql_query sql w with
          | (Raise e, w') => (Raise e, msgs, w')
          | (Return res, w') =>
              run_tool_calls calls'
                (msgs ++ [ToolMsg (call_id call) (lit "run_sql_query") res]) w'
          end
      end
  end.

(** [for _ in range(n): ...] followed by the warning after the loop. *)
Fixpoint chat_rounds (n : nat) (msgs : list Message)
  : World -> result unit * list Message * World := fun w =>
  match n with
  | O => (Return tt, msgs, add_log WARNING (lit "Tool-call budget exceeded.") w)
  | S n' =>
      let w := add_request msgs w in
      match agent msgs with
      | Raise e => (Raise e, msgs, w)
      | Return msg =>
          let msgs := msgs ++ [AssistantMsg msg] in
          match tool_calls msg with
          | None =>
              match content msg with
              | None =>
                  (Raise (TypeError (lit "can only concatenate str (not " ++ [QUOTE]
                                     ++ lit "NoneType" ++ [QUOTE] ++ lit ") to str")),
                   msgs, w)
              | Some text =>
                  (Return tt, msgs,
                   add_stdout ([NEWLINE] ++ lit "Assistant:" ++ [NEWLINE] ++ text
                               ++ [NEWLINE]) w)
              end
          | Some calls =>
              match run_tool_calls calls msgs w with
              | (Raise e, msgs, w) => (Raise e, msgs, w)
              | (Return _, msgs, w) => chat_rounds n' msgs w
              end
          end
      end
  end.

(** [chat(prompt)], with the transcript it ends on. *)
Definition chat_run (prompt : pystr)
  : World -> result unit * list Message * World := fun w =>
  match api_key with
  | [] => (Return tt, [], add_log ERROR (lit "Chat disabled (no API key).") w)
  | _ :: _ => chat_rounds 5 [SystemMsg PROMPT; UserMsg prompt] w
  end.

Definition chat (prompt : pystr) : M unit := fun w =>
  let '(r, _, w') := chat_run prompt w in (r, w').

End Program.

(** The tool messages of a transcript: one for each Query Executor call that
    returned. *)
Definition tool_results (msgs : list Message) : nat :=
  length (List.filter (fun m => match m with ToolMsg _ _ _ => true | _ => false end) msgs).

(** The tool invocations the agent asked for in a transcript. *)
Fixpoint invocations (msgs : list Message) : nat :=
  match msgs with
  | [] => O
  | AssistantMsg m :: msgs' =>
      (match tool_calls m with Some calls => length calls | None => O end
       + invocations msgs')%nat
  | _ :: msgs' => invocations msgs'
  end.

(** ** A small engine to run the program on

    [demo_engine] answers the catalog query, three statements on the target
    table and a misspelt one the way SQLite does, and rejects every other
    statement.
    [ascii_upper] is [str.upper] on ASCII text. *)

Definition ascii_upper (s : pystr) : pystr :=
  map (fun c => if (97 <=? c) && (c <=? 122) then c - 32 else c) s.

Fixpoint find_table (db : Db) (name : pystr)
  : option (list pystr * list (list value)) :=
  match db with
  | [] => None
  | TableObj n columns rows :: db' =>
      if decide (n = name) then Some (columns, rows) else find_table db' name
  | OtherObj _ _ :: db' => find_table db' name
  end.

Definition clear_table (name : pystr) (db : Db) : Db :=
  map (fun o => match o with
                | TableObj n columns rows =>
                    if decide (n = name) then TableObj n columns [] else o
                | OtherObj _ _ => o
                end) db.

Definition SELECT_ALL : pystr := lit "SELECT * FROM freelancer_earnings_bd".
Definition SELECT_NONE : pystr := lit "SELECT * FROM freelancer_earnings_bd WHERE 0".
Definition DELETE_ALL : pystr := lit "DELETE FROM freelancer_earnings_bd".
Definition MISSPELT : pystr := lit "SELEC 1".

Definition near_SELEC : pystr :=
  lit "near " ++ [QUOTE] ++ lit "SELEC" ++ [QUOTE] ++ lit ": syntax error".

(** The text of the error for a statement with [uses] placeholders run with
    [supplied] parameters. *)
Definition bindings_message (uses supplied : nat) : pystr :=
  lit "Incorrect number of bindings supplied. The current statement uses "
  ++ str_of_nat uses ++ lit ", and there are " ++ str_of_nat supplied
  ++ lit " supplied.".

Definition no_such_table : exec_result :=
  ExecRaise (sqlite3_Error (lit "no such table: freelancer_earnings_bd")).

Definition demo_execute (db : Db) (sql : pystr) (params : list value) : exec_result :=
  if decide (sql = CATALOG_QUERY) then
    match params with
    | [VText name] =>
        ExecOk db (Some [lit "1"]) (if has_table db name then [[VInt 1]] else []) 0
    | _ => ExecRaise (sqlite3_Error (bindings_message 1 (length params)))
    end
  else if decide (sql = SELECT_ALL) then
    match find_table db TABLE with
    | Some (columns, rows) => ExecOk db (Some columns) rows 0
    | None => no_such_table
    end
  else if decide (sql = SELECT_NONE) then
    match find_table db TABLE with
    | Some (columns, _) => ExecOk db (Some columns) [] 0
    | None => no_such_table
    end
  else if decide (sql = DELETE_ALL) then
    match find_table db TABLE with
    | Some (_, rows) => ExecOk (clear_table TABLE db) None [] (length rows)
    | None => no_such_table
    end
  else if decide (sql = MISSPELT) then ExecRaise (sqlite3_Error near_SELEC)
  else ExecRaise (sqlite3_Error (lit "syntax error")).

Definition demo_executescript (db : Db) (script : pystr) : Db * nat * option exn :=
  (db, O, Some (sqlite3_Error (lit "syntax error"))).

Definition demo_engine : Engine :=
  {| execute := demo_execute;
     executescript := demo_executescript;
     execute_catalog := fun db name => eq_refl |}.

(** A store holding the target table with two rows, and worlds around it. *)
Definition demo_db : Db :=
  [TableObj TABLE [lit "name"; lit "score"]
     [[VText (lit "a"); VText (lit "1")]; [VText (lit "b"); VText (lit "2")]]].

Definition world_of (files : gmap pystr source_file) (f : option store_file) : World :=
  {| csv_files := files; database := f; log := []; stdout := []; requests := [] |}.

Definition ready_world : World := world_of ∅ (Some (Database demo_db)).
Definition fresh_world : World := world_of ∅ None.
Definition empty_csv : Path := {| path_str := lit "empty.csv"; path_name := lit "empty.csv" |}.
Definition empty_csv_world : World :=
  world_of {[ lit "empty.csv" := Text [] ]} None.

(** An agent that asks for two queries on every turn. *)
Definition two_calls : AgentMessage :=
  {| content := None;
     tool_calls := Some [ {| call_id := lit "call_1"; call_query := Some SELECT_ALL |};
                          {| call_id := lit "call_2"; call_query := Some SELECT_NONE |} ] |}.
Definition eager_agent : Agent := fun _ => Return two_calls.


(** ** Notions the properties are stated with *)

(** One character through the three replacements. *)
Definition clean_char (c : N) : pystr :=
  replace PERIOD [] (replace HYPHEN [UNDERSCORE] (replace SPACE [UNDERSCORE] [c])).


(** The statement is a select by the executor's syntactic test. *)
Definition is_select (upper : pystr -> pystr) (query : pystr) : bool :=
  startswith (upper (lstrip query)) (lit "SELECT").

(** The confirmation string of a mutation that reports [n] changes. *)
Definition confirmation (n : nat) : pystr :=
  lit "OK (" ++ str_of_nat n ++ lit " changes)".

(** The [except sqlite3.Error] clause of [run_sql_query] on an exception. *)
Definition sql_error_caught (e : exn) (w : World) : result pystr * World :=
  match e with
  | sqlite3_Error msg => (Return (lit "SQL error: " ++ msg), w)
  | _ => (Raise e, w)
  end.

(** ** Entry Orchestrator *)

(** What [input()] meets on standard input: a line, or the user's
    interrupt. The end of the list is the end of input. *)
Inductive input_event :=
| Line (text : pystr)
| CtrlC.

Section Entry.

Variable eng : Engine.
Variable upper : pystr -> pystr.
Variable agent : Agent.
Variable api_key : pystr.

(** [str.lower], the Unicode case mapping of the interpreter. *)
Variable lower : pystr -> pystr.

(** Whether an exception is an [EOFError] or a [KeyboardInterrupt], which are
    among the classes [OtherException] stands for. *)
Variable is_interrupt : exn -> bool.

(** [DEFAULT_CSV], read from the environment when the module is loaded. *)
Variable DEFAULT_CSV : Path.

Definition BANNER : pystr :=
  lit "Interactive mode " ++ [8212] ++ lit " exit/quit to leave".

(** The [while True] loop of [main]: [input] writes its prompt, then returns
    the next line or raises; [EOFError] and [KeyboardInterrupt], from [input]
    or from [chat], leave the loop. *)
Fixpoint repl (stdin : list input_event) : M unit := fun w =>
  let w := add_stdout (lit "You: ") w in
  match stdin with
  | [] => (Return tt, w)
  | CtrlC :: _ => (Return tt, w)
  | Line text :: stdin' =>
      let line := strip text in
      if bool_decide (lower line = lit "exit") || bool_decide (lower line = lit "quit")
      then (Return tt, w)
      else
        match line with
        | [] => repl stdin' w
        | _ :: _ =>
            match chat eng upper agent api_key line w with
            | (Return _, w') => repl stdin' w'
            | (Raise e, w') =>
                if is_interrupt e then (Return tt, w') else (Raise e, w')
            end
        end
  end.

(** [main()] after [parser.parse_args()], with [args.prompt] and the
    standard input. *)
Definition main (prompt : list pystr) (stdin : list input_event) : M unit :=
  ready ← db_ready eng;
  ok ← (if ready : bool then (mret true : M bool)
        else
          _ ← logging INFO (lit "Database missing; importing " ++ path_str DEFAULT_CSV);
          import_csv eng DEFAULT_CSV);
  if negb ok then logging ERROR (lit "Cannot continue without database/table.")
  else
    let text := match prompt with
                | [] => []
                | _ :: _ => join (lit " ") prompt
                end in
    match text with
    | _ :: _ => chat eng upper agent api_key text
    | [] => _ ← modify (add_stdout BANNER); repl stdin
    end.

End Entry.

(** ** The importer's statements, and an engine that runs them *)

Definition quoted (s : pystr) : pystr := [QUOTE] ++ s ++ [QUOTE].

(** The column list, the script and the insert statement [import_csv] builds
    for a normalized header. *)
Definition column_list (header : list pystr) : pystr :=
  join (lit ", ") (map (fun c => [QUOTE] ++ c ++ [QUOTE]) header).

Definition create_script (header : list pystr) : pystr :=
  lit "DROP TABLE IF EXISTS " ++ [QUOTE] ++ TABLE ++ [QUOTE] ++ lit ";"
  ++ lit "CREATE TABLE " ++ [QUOTE] ++ TABLE ++ [QUOTE]
  ++ lit " (" ++ column_list header ++ lit ");".

Definition insert_statement (header : list pystr) : pystr :=
  lit "INSERT INTO " ++ [QUOTE] ++ TABLE ++ [QUOTE] ++ lit " ("
  ++ column_list header ++ lit ") VALUES ("
  ++ join (lit ", ") (map (fun _ => lit "?") header) ++ lit ")".

(** The log record of a successful import. *)
Definition imported_message (csv_file : Path) (n : nat) : pystr :=
  lit "Imported " ++ path_name csv_file ++ lit " into " ++ path_str DATABASE
  ++ lit " (" ++ str_of_nat n ++ lit " rows)".

Definition drop_table (name : pystr) (db : Db) : Db :=
  List.filter (fun o => match o with
                        | TableObj n _ _ => negb (bool_decide (n = name))
                        | OtherObj _ _ => true
                        end) db.

Definition append_row (name : pystr) (r : list value) (db : Db) : Db :=
  map (fun o => match o with
                | TableObj n columns rows =>
                    if decide (n = name) then TableObj n columns (rows ++ [r]) else o
                | OtherObj _ _ => o
                end) db.

Definition NAME_SCORE : list pystr := [lit "name"; lit "score"].

(** [scores_engine] is [demo_engine] with the script and the insert statement
    of an import under the header [name, score], answered the way SQLite
    does. *)
Definition scores_execute (db : Db) (sql : pystr) (params : list value) : exec_result :=
  if decide (sql = CATALOG_QUERY) then
    match params with
    | [VText name] =>
        ExecOk db (Some [lit "1"]) (if has_table db name then [[VInt 1]] else []) 0
    | _ => ExecRaise (sqlite3_Error (bindings_message 1 (length params)))
    end
  else if decide (sql = insert_statement NAME_SCORE) then
    if has_table db TABLE then
      match params with
      | [a; b] => ExecOk (append_row TABLE [a; b] db) None [] 1
      | _ => ExecRaise (sqlite3_Error (bindings_message 2 (length params)))
      end
    else no_such_table
  else demo_execute db sql params.

Definition scores_executescript (db : Db) (script : pystr) : Db * nat * option exn :=
  if decide (script = create_script NAME_SCORE)
  then (TableObj TABLE NAME_SCORE [] :: drop_table TABLE db, O, None)
  else (db, O, Some (sqlite3_Error (lit "syntax error"))).

Definition scores_engine : Engine :=
  {| execute := scores_execute;
     executescript := scores_executescript;
     execute_catalog := fun db name => eq_refl |}.

Definition scores_csv : Path :=
  {| path_str := lit "data/scores.csv"; path_name := lit "scores.csv" |}.

(** A world with the file [name,score / a,1 / b,2 / c,3] and no store. *)
Definition scores_world : World :=
  world_of {[ lit "data/scores.csv" :=
                Text [Yield [lit " name"; lit "score "];
                      Yield [lit "a"; lit "1"];
                      Yield [lit "b"; lit "2"];
                      Yield [lit "c"; lit "3"]] ]} None.

Definition ascii_lower (s : pystr) : pystr :=
  map (fun c => if (65 <=? c) && (c <=? 90) then c + 32 else c) s.

Definition no_interrupt : exn -> bool := fun _ => false.

(** An agent that answers at once. *)
Definition final_answer : AgentMessage :=
  {| content := Some (lit "42"); tool_calls := None |}.
Definition direct_agent : Agent := fun _ => Return final_answer.

(** ** Further notions *)

(** A character the normalizer has nothing to do with. *)
Definition plain_char (c : N) : bool :=
  negb (isspace c) && negb (c =? HYPHEN) && negb (c =? PERIOD).

(** The three replacements of [_clean], after the trimming. *)
Definition replaced (t : pystr) : pystr :=
  replace PERIOD [] (replace HYPHEN [UNDERSCORE] (replace SPACE [UNDERSCORE] t)).

(** A store whose table holds a BLOB in its second row. *)
Definition blob_db : Db :=
  [TableObj TABLE [lit "name"; lit "photo"]
     [[VText (lit "a"); VNull]; [VText (lit "b"); VBlob [255; 216]]]].
Definition blob_world : World := world_of ∅ (Some (Database blob_db)).

Definition NOT_SERIALIZABLE : exn :=
  TypeError (lit "Object of type bytes is not JSON serializable").

(** The [except (csv.Error, sqlite3.Error)] clause of [import_csv] on an
    exception. *)
Definition import_caught (e : exn) (w : World) : result bool * World :=
  match e with
  | csv_Error msg | sqlite3_Error msg =>
      (Return false, add_log ERROR (lit "Import failed: " ++ msg) w)
  | _ => (Raise e, w)
  end.

(** The store file [sqlite3.connect] finds or creates, and the world after
    the call. *)
Definition opened_store (w : World) : store_file :=
  match database w with
  | Some f => f
  | None => Database []
  end.

Definition connected (w : World) : World :=
  match database w with
  | Some _ => w
  | None => set_database (Database []) w
  end.

(** The world after a connection's view is committed. *)
Definition committed (c : Connection) (w : World) : World :=
  match conn_file c with
  | Database db => set_database (Database db) w
  | Unusable _ => w
  end.

(** A world whose source has a record one field short. *)
Definition short_row_world : World :=
  world_of {[ lit "data/scores.csv" :=
                Text [Yield [lit "name"; lit "score"];
                      Yield [lit "a"; lit "1"];
                      Yield [lit "b"]] ]} (Some (Database demo_db)).

(** The tool message that answers a call, and what [print] writes for a
    final answer. *)
Definition tool_message (call : ToolCall) (res : pystr) : Message :=
  ToolMsg (call_id call) (lit "run_sql_query") res.

Definition printed_answer (text : pystr) : pystr :=
  [NEWLINE] ++ lit "Assistant:" ++ [NEWLINE] ++ text ++ [NEWLINE].

(** The seed of a transcript. *)
Definition seed (prompt : pystr) : list Message :=
  [SystemMsg PROMPT; UserMsg prompt].

(** Whether an input event ends the interactive loop by itself. *)
Definition leaves_repl (lower : pystr -> pystr) (ev : input_event) : bool :=
  match ev with
  | CtrlC => true
  | Line text =>
      bool_decide (lower (strip text) = lit "exit")
      || bool_decide (lower (strip text) = lit "quit")
  end.

(** Two invocations, the second with a misspelt statement. *)
Definition mixed_calls : list ToolCall :=
  [ {| call_id := lit "call_1"; call_query := Some SELECT_ALL |};
    {| call_id := lit "call_2"; call_query := Some MISSPELT |} ].

(** A character of a transport-safe text: a newline or printable ASCII. *)
Definition transport_safe (c : N) : Prop := c = NEWLINE \/ 32 <= c <= 126.

(** Whitespace the replacements of [_clean] leave in place: any whitespace
    character but the plain space. *)
Definition hidden_space (c : N) : bool := isspace c && negb (c =? SPACE).

(** The first character of a string that is not a period, and the last. *)
Fixpoint first_kept (t : pystr) : option N :=
  match t with
  | [] => None
  | c :: t' => if c =? PERIOD then first_kept t' else Some c
  end.

Definition last_kept (t : pystr) : option N := first_kept (reverse t).

(** Neither the first nor the last character other than a period is
    whitespace that stays. *)
Definition edges_clean (t : pystr) : bool :=
  match first_kept t with Some c => negb (hidden_space c) | None => true end
  && match last_kept t with Some c => negb (hidden_space c) | None => true end.

(** The only whitespace of a string is the plain space. *)
Definition only_plain_space (s : pystr) : bool :=
  forallb (fun c => negb (hidden_space c)) s.



(** [strict_engine] is [demo_engine] behind the sqlite3 module's encoding of
    the statement: a statement with a surrogate code point cannot be encoded
    as UTF-8 and [db.execute] raises [UnicodeEncodeError], which is not an
    [sqlite3.Error]. *)
Definition is_surrogate (c : N) : bool := (55296 <=? c) && (c <=? 57343).

Fixpoint first_surrogate (s : pystr) (i : nat) : option (N * nat) :=
  match s with
  | [] => None
  | c :: s' => if is_surrogate c then Some (c, i) else first_surrogate s' (S i)
  end.

Definition surrogates_not_allowed (c : N) (i : nat) : exn :=
  OtherException (lit "'utf-8' codec can't encode character '" ++ u_escape c
                  ++ lit "' in position " ++ str_of_nat i
                  ++ lit ": surrogates not allowed").

Definition strict_execute (db : Db) (sql : pystr) (params : list value) : exec_result :=
  match first_surrogate sql O with
  | Some (c, i) => ExecRaise (surrogates_not_allowed c i)
  | None => demo_execute db sql params
  end.

Definition strict_engine : Engine :=
  {| execute := strict_execute;
     executescript := demo_executescript;
     execute_catalog := fun db name => eq_refl |}.

(** A select with a lone surrogate in its text, and an agent that asks for
    it. *)
Definition SURROGATE_QUERY : pystr := lit "SELECT '" ++ [55296] ++ lit "'".
Definition surrogate_call : ToolCall :=
  {| call_id := lit "call_1"; call_query := Some SURROGATE_QUERY |}.
Definition surrogate_agent : Agent := fun _ =>
  Return {| content := None; tool_calls := Some [surrogate_call] |}.

(** * Properties *)

(** ** Column Normalizer *)

Lemma replace_one old new s :
  replace old [new] s = map (fun c => if c =? old then new else c) s.
Proof.
  induction s as [|c s IH]; [reflexivity|].
  unfold replace in *. simpl. rewrite IH. destruct (c =? old); reflexivity.
Qed.

Lemma replace_absent old new s : old ∉ s -> replace old new s = s.
Proof.
  induction s as [|c s IH]; intros Hs; [reflexivity|].
  apply not_elem_of_cons in Hs as [Hc Hs].
  unfold replace in *. simpl. rewrite (IH Hs).
  destruct (N.eqb_spec c old); [congruence | reflexivity].
Qed.

Lemma elem_of_replace old new s c :
  c ∈ replace old new s -> (c ∈ new) \/ (c ∈ s /\ c <> old).
Proof.
  induction s as [|d s IH]; unfold replace in *; simpl.
  - intros H. inversion H.
  - rewrite elem_of_app. intros [H|H].
    + destruct (N.eqb_spec d old) as [->|Hd]; [left; exact H|].
      apply list_elem_of_singleton in H as ->. right. split; [left | exact Hd].
    + destruct (IH H) as [?|[? ?]]; [left; assumption | right; split; [right|]; assumption].
Qed.

Lemma replace_removes old new s : old ∉ new -> old ∉ replace old new s.
Proof. intros Hn H. apply elem_of_replace in H as [H|[_ H]]; [exact (Hn H) | exact (H eq_refl)]. Qed.

Lemma replace_keeps_out old new s c : c ∉ new -> c ∉ s -> c ∉ replace old new s.
Proof. intros Hn Hs H. apply elem_of_replace in H as [H|[H _]]; auto. Qed.

Lemma replace_app old new s t :
  replace old new (s ++ t) = replace old new s ++ replace old new t.
Proof. unfold replace. apply flat_map_app. Qed.

(** What [lstrip] and [rstrip] leave is a suffix, a prefix of the input. *)
Lemma lstrip_suffix s : exists ws, s = ws ++ lstrip s.
Proof.
  induction s as [|c s [ws IH]]; [exists []; reflexivity|].
  simpl. destruct (isspace c).
  - exists (c :: ws). simpl. f_equal. exact IH.
  - exists []. reflexivity.
Qed.

Lemma rstrip_prefix s : exists ws, s = rstrip s ++ ws.
Proof.
  unfold rstrip. destruct (lstrip_suffix (reverse s)) as [ws H].
  exists (reverse ws). rewrite <- reverse_app, <- H. symmetry. apply reverse_involutive.
Qed.

Lemma head_lstrip s c : head (lstrip s) = Some c -> isspace c = false.
Proof.
  induction s as [|d s IH]; simpl; [discriminate|].
  destruct (isspace d) eqn:E; [exact IH|]. simpl. intros [= <-]. exact E.
Qed.

Lemma last_rstrip s c : last (rstrip s) = Some c -> isspace c = false.
Proof. unfold rstrip. rewrite last_reverse. apply head_lstrip. Qed.

Lemma head_strip s c : head (strip s) = Some c -> isspace c = false.
Proof.
  unfold strip. intros H. destruct (rstrip_prefix (lstrip s)) as [ws E].
  apply (head_lstrip s). rewrite E.
  destruct (rstrip (lstrip s)); [discriminate | exact H].
Qed.

Lemma last_strip s c : last (strip s) = Some c -> isspace c = false.
Proof. apply last_rstrip. Qed.

Lemma lstrip_fixed c s : isspace c = false -> lstrip (c :: s) = c :: s.
Proof. intros H. simpl. rewrite H. reflexivity. Qed.

Lemma rstrip_fixed s c : isspace c = false -> rstrip (s ++ [c]) = s ++ [c].
Proof.
  intros H. unfold rstrip. rewrite reverse_app. simpl.
  rewrite H. rewrite reverse_cons. rewrite reverse_involutive. reflexivity.
Qed.

(** A string with no whitespace at either end is left alone by [strip]. *)
Lemma strip_fixed s :
  (forall c, head s = Some c -> isspace c = false) ->
  (forall c, last s = Some c -> isspace c = false) ->
  strip s = s.
Proof.
  intros Hh Hl. unfold strip.
  assert (lstrip s = s) as ->.
  { destruct s as [|c s]; [reflexivity|]. apply lstrip_fixed, Hh. reflexivity. }
  destruct s as [|c s _] using rev_ind; [reflexivity|].
  apply rstrip_fixed, Hl. apply last_snoc.
Qed.

Lemma strip_sublist s c : c ∈ strip s -> c ∈ s.
Proof.
  intros H. unfold strip in H.
  destruct (rstrip_prefix (lstrip s)) as [ws1 E1].
  destruct (lstrip_suffix s) as [ws2 E2].
  rewrite E2, E1. rewrite !elem_of_app. auto.
Qed.

Lemma clean_char_kept c :
  c <> PERIOD -> exists d, clean_char c = [d] /\ (isspace c = false -> isspace d = false).
Proof.
  intros Hc. unfold clean_char, replace. simpl.
  destruct (N.eqb_spec c SPACE) as [->|Hs]; simpl.
  - exists UNDERSCORE. split; reflexivity.
  - destruct (N.eqb_spec c HYPHEN) as [->|Hh]; simpl.
    + exists UNDERSCORE. split; reflexivity.
    + destruct (N.eqb_spec c PERIOD) as [->|_]; [contradiction|].
      exists c. split; [reflexivity | auto].
Qed.

Lemma clean_strip s :
  _clean s = replace PERIOD [] (replace HYPHEN [UNDERSCORE] (replace SPACE [UNDERSCORE] (strip s))).
Proof. reflexivity. Qed.

Lemma replaced_cons c s :
  replace PERIOD [] (replace HYPHEN [UNDERSCORE] (replace SPACE [UNDERSCORE] (c :: s)))
  = clean_char c ++ replace PERIOD [] (replace HYPHEN [UNDERSCORE] (replace SPACE [UNDERSCORE] s)).
Proof. change (c :: s) with ([c] ++ s). rewrite !replace_app. reflexivity. Qed.

Lemma replaced_snoc s c :
  replace PERIOD [] (replace HYPHEN [UNDERSCORE] (replace SPACE [UNDERSCORE] (s ++ [c])))
  = replace PERIOD [] (replace HYPHEN [UNDERSCORE] (replace SPACE [UNDERSCORE] s)) ++ clean_char c.
Proof. rewrite !replace_app. reflexivity. Qed.

Lemma clean_no_space s : SPACE ∉ _clean s.
Proof.
  unfold _clean. apply replace_keeps_out; [apply not_elem_of_nil|].
  apply replace_keeps_out; [by intros ?%list_elem_of_singleton|].
  apply replace_removes. by intros ?%list_elem_of_singleton.
Qed.

Lemma clean_no_hyphen s : HYPHEN ∉ _clean s.
Proof.
  unfold _clean. apply replace_keeps_out; [apply not_elem_of_nil|].
  apply replace_removes. by intros ?%list_elem_of_singleton.
Qed.

Lemma clean_no_period s : PERIOD ∉ _clean s.
Proof. unfold _clean. apply replace_removes, not_elem_of_nil. Qed.

(** When the trimmed token has a period at neither end, normalizing leaves
    no whitespace at either end. *)
Lemma clean_trimmed s :
  first_char (strip s) <> Some PERIOD ->
  last_char (strip s) <> Some PERIOD ->
  trimmed (_clean s).
Proof.
  unfold first_char, last_char, trimmed. intros Hf Hl.
  rewrite clean_strip. apply strip_fixed.
  - pose proof (head_strip s) as Hh.
    destruct (strip s) as [|c t]; [discriminate|].
    rewrite replaced_cons. intros d Hd.
    destruct (clean_char_kept c) as (e & E & He); [intros ->; by apply Hf|].
    rewrite E in Hd. simpl in Hd. injection Hd as <-. apply He, Hh. reflexivity.
  - pose proof (last_strip s) as Hh.
    destruct (strip s) as [|c t _] using rev_ind; [discriminate|].
    rewrite replaced_snoc. intros d Hd.
    rewrite last_snoc in Hl, Hh.
    destruct (clean_char_kept c) as (e & E & He); [intros ->; by apply Hl|].
    rewrite E, last_snoc in Hd. injection Hd as <-. apply He, Hh. reflexivity.
Qed.

(** A trimmed string with no space, hyphen or period is a fixed point. *)
Lemma clean_fixed t :
  trimmed t -> SPACE ∉ t -> HYPHEN ∉ t -> PERIOD ∉ t -> _clean t = t.
Proof.
  unfold trimmed. intros Ht Hs Hh Hp. unfold _clean. rewrite Ht.
  rewrite (replace_absent SPACE) by assumption.
  rewrite (replace_absent HYPHEN) by assumption.
  apply replace_absent. assumption.
Qed.

(** Normalizing a second time only trims. *)
Lemma clean_clean_strip s : _clean (_clean s) = strip (_clean s).
Proof.
  unfold _clean at 1.
  pose proof (clean_no_space s). pose proof (clean_no_hyphen s).
  pose proof (clean_no_period s).
  rewrite (replace_absent SPACE) by (intros ?%strip_sublist; auto).
  rewrite (replace_absent HYPHEN) by (intros ?%strip_sublist; auto).
  apply replace_absent. intros ?%strip_sublist; auto.
Qed.

Lemma clean_char_hidden c :
  c <> PERIOD -> exists d, clean_char c = [d] /\ isspace d = hidden_space c.
Proof.
  intros Hc. unfold clean_char, replace, hidden_space. simpl.
  destruct (N.eqb_spec c SPACE) as [->|Hs]; simpl.
  - exists UNDERSCORE. split; reflexivity.
  - destruct (N.eqb_spec c HYPHEN) as [->|Hh]; simpl.
    + exists UNDERSCORE. split; reflexivity.
    + destruct (N.eqb_spec c PERIOD) as [->|_]; [contradiction|].
      exists c. split; [reflexivity | by rewrite andb_true_r].
Qed.

(** The first character left by the replacements comes from the first
    character other than a period, and is whitespace when that one stays
    whitespace. *)
Lemma head_replaced t :
  match first_kept t with
  | None => replaced t = []
  | Some c => exists d rest, replaced t = d :: rest /\ isspace d = hidden_space c
  end.
Proof.
  induction t as [|c t IH]; [reflexivity|].
  unfold replaced in *. rewrite replaced_cons. simpl first_kept.
  destruct (N.eqb_spec c PERIOD) as [->|Hc]; [exact IH|].
  destruct (clean_char_hidden c Hc) as (d & -> & Hd). eauto.
Qed.

Lemma replaced_reverse t : replaced (reverse t) = reverse (replaced t).
Proof.
  induction t as [|c t IH]; [reflexivity|].
  rewrite reverse_cons. unfold replaced in *. rewrite replaced_snoc, replaced_cons, IH.
  rewrite reverse_app. f_equal.
  destruct (N.eq_dec c PERIOD) as [->|Hc]; [reflexivity|].
  by destruct (clean_char_hidden c Hc) as (d & -> & _).
Qed.

Lemma trimmed_iff x :
  trimmed x <->
  (forall c, head x = Some c -> isspace c = false)
  /\ (forall c, last x = Some c -> isspace c = false).
Proof.
  unfold trimmed. split.
  - intros H. rewrite <- H. split; [apply head_strip | apply last_strip].
  - intros [Hh Hl]. by apply strip_fixed.
Qed.

Lemma head_replaced_space t :
  (forall c, head (replaced t) = Some c -> isspace c = false)
  <-> match first_kept t with Some c => negb (hidden_space c) | None => true end = true.
Proof.
  pose proof (head_replaced t) as H. destruct (first_kept t) as [c|].
  - destruct H as (d & rest & -> & Hd). simpl. rewrite <- Hd, negb_true_iff. split.
    + intros Hc. by apply Hc.
    + by intros Hc ? [= <-].
  - rewrite H. split; [done | discriminate].
Qed.

Lemma replaced_trimmed_iff t : trimmed (replaced t) <-> edges_clean t = true.
Proof.
  rewrite trimmed_iff. unfold edges_clean, last_kept. rewrite andb_true_iff.
  rewrite <- !head_replaced_space, replaced_reverse.
  split; intros [Hh Hl]; (split; [exact Hh|]); intros c Hc; apply Hl.
  - by rewrite <- head_reverse.
  - by rewrite head_reverse.
Qed.

Lemma first_kept_elem t c : first_kept t = Some c -> c ∈ t.
Proof.
  induction t as [|d t IH]; simpl; [discriminate|].
  destruct (d =? PERIOD); [intros H; right; by apply IH | intros [= ->]; left].
Qed.

Lemma only_plain_space_edges s : only_plain_space s = true -> edges_clean (strip s) = true.
Proof.
  unfold only_plain_space, edges_clean, last_kept. rewrite forallb_forall. intros H.
  assert (forall c, c ∈ strip s -> negb (hidden_space c) = true) as Hs.
  { intros c Hc%strip_sublist. apply H. by apply list_elem_of_In. }
  apply andb_true_iff. split.
  - destruct (first_kept (strip s)) as [c|] eqn:E; [|reflexivity].
    apply Hs. by apply first_kept_elem.
  - destruct (first_kept (reverse (strip s))) as [c|] eqn:E; [|reflexivity].
    apply Hs. apply first_kept_elem in E. by rewrite elem_of_reverse in E.
Qed.

(** C6, as amended. [_clean] trims, then replaces spaces and hyphens by
    underscores, then removes periods; its output has no space, no hyphen
    and no period; it has no whitespace at either end exactly when, in the
    trimmed token, the first and the last character other than a period is
    not a whitespace character other than the plain space; so it has none
    for every token whose only whitespace is the plain space. *)
Theorem clean_normalizes (s : pystr) :
  _clean s = replace PERIOD [] (replace HYPHEN [UNDERSCORE]
               (replace SPACE [UNDERSCORE] (strip s)))
  /\ (SPACE ∉ _clean s) /\ (HYPHEN ∉ _clean s) /\ (PERIOD ∉ _clean s)
  /\ (trimmed (_clean s) <-> edges_clean (strip s) = true)
  /\ (only_plain_space s = true -> trimmed (_clean s)).
Proof.
  split; [reflexivity|].
  split; [apply clean_no_space|].
  split; [apply clean_no_hyphen|].
  split; [apply clean_no_period|].
  split; [apply (replaced_trimmed_iff (strip s))|].
  intros H. apply (replaced_trimmed_iff (strip s)). by apply only_plain_space_edges.
Qed.

Lemma clean_normalizes_witness : trimmed (_clean (lit " .No. of-Jobs. ")).
Proof.
  destruct (clean_normalizes (lit " .No. of-Jobs. ")) as (_ & _ & _ & _ & _ & H).
  apply H. vm_compute. reflexivity.
Defined.

(** C6 fails as stated: the token made of a period, a tab and the letter a
    contains a period, and normalizes to the tab and the letter, which starts
    with whitespace. *)
Lemma clean_leaves_whitespace :
  ~ (forall s : pystr,
       SPACE ∈ s \/ HYPHEN ∈ s \/ PERIOD ∈ s ->
       (SPACE ∉ _clean s) /\ (HYPHEN ∉ _clean s) /\ (PERIOD ∉ _clean s)
       /\ trimmed (_clean s)).
Proof.
  intros H. destruct (H [PERIOD; TAB; 97]) as (_ & _ & _ & Ht).
  - right. right. left.
  - vm_compute in Ht. discriminate Ht.
Qed.

(** C10, as amended. [_clean] is idempotent at exactly the strings in whose
    trimmed form the first and the last character other than a period is
    not a whitespace character other than the plain space; so it is
    idempotent at every string whose only whitespace is the plain space. *)
Theorem clean_idempotent (s : pystr) :
  (_clean (_clean s) = _clean s <-> edges_clean (strip s) = true)
  /\ (only_plain_space s = true -> _clean (_clean s) = _clean s).
Proof.
  assert (_clean (_clean s) = _clean s <-> edges_clean (strip s) = true) as H.
  { rewrite clean_clean_strip. apply (replaced_trimmed_iff (strip s)). }
  split; [exact H|]. intros Hs. apply H. by apply only_plain_space_edges.
Qed.

Lemma clean_idempotent_witness :
  _clean (_clean (lit " .No. of-Jobs. ")) = _clean (lit " .No. of-Jobs. ").
Proof.
  destruct (clean_idempotent (lit " .No. of-Jobs. ")) as [_ H].
  apply H. vm_compute. reflexivity.
Defined.

(** C10 fails as stated: a period, a tab and a letter normalize to the tab
    and the letter, and those normalize to the letter alone. *)
Lemma clean_not_idempotent :
  ~ (forall s : pystr, _clean (_clean s) = _clean s).
Proof. intros H. specialize (H [PERIOD; TAB; 97]). vm_compute in H. discriminate H. Qed.

(** ** Store Readiness Check *)

Lemma set_database_same w f : database w = Some f -> set_database f w = w.
Proof. destruct w. simpl. intros ->. reflexivity. Qed.

(** What [db_ready] returns and does, by the state of the store file. *)
Lemma db_ready_spec eng w :
  db_ready eng w =
  match database w with
  | None => (Return false, w)
  | Some (Database db) => (Return (has_table db TABLE), w)
  | Some (Unusable msg) =>
      (Return false, add_log ERROR (lit "DB check failed: " ++ msg) w)
  end.
Proof.
  unfold db_ready. destruct (database w) as [[db|msg]|] eqn:E; [| |reflexivity].
  - unfold try_except, with_connection, mbind, M_bind, connect, lift, conn_execute.
    rewrite E. simpl. rewrite execute_catalog. simpl.
    rewrite (set_database_same _ _ E).
    destruct (has_table db TABLE); reflexivity.
  - unfold try_except, with_connection, mbind, M_bind, connect, lift, conn_execute.
    rewrite E. reflexivity.
Qed.



(** ** Query Executor *)

(** The executor on a ready store, by what the engine does with the
    statement. *)
Lemma run_sql_query_ready eng upper query w db :
  database w = Some (Database db) ->
  has_table db TABLE = true ->
  run_sql_query eng upper query w =
  match execute eng db query [] with
  | ExecRaise e => sql_error_caught e w
  | ExecOk db' description fetched changes =>
      if is_select upper query then
        match rows_of (description, fetched) with
        | Raise e => sql_error_caught e w
        | Return rows =>
            match json_dumps (take 20 rows) with
            | Raise e => sql_error_caught e w
            | Return text =>
                (Return (py_or text (lit "No rows.")), set_database (Database db') w)
            end
        end
      else (Return (confirmation changes), set_database (Database db') w)
  end.
Proof.
  intros E Ht. unfold run_sql_query, mbind at 1, M_bind at 1.
  rewrite db_ready_spec, E, Ht. cbn [negb].
  unfold try_except, with_connection, mbind, M_bind, connect, lift, conn_execute.
  cbv beta. rewrite E. simpl.
  destruct (execute eng db query []) as [e|db' d rows n].
  - destruct e; reflexivity.
  - unfold is_select. destruct (startswith _ _).
    + destruct (rows_of (d, rows)) as [rs|e]; [|destruct e; reflexivity].
      destruct (json_dumps (take 20 rs)) as [text|e]; [|destruct e; reflexivity].
      reflexivity.
    + reflexivity.
Qed.

(** The executor on a store that is not ready. *)
Lemma run_sql_query_unready eng upper query w w' :
  db_ready eng w = (Return false, w') ->
  run_sql_query eng upper query w = (Return (lit "Database not initialised."), w').
Proof.
  intros H. unfold run_sql_query, mbind, M_bind. rewrite H. reflexivity.
Qed.

Lemma mapR_raise {A B} (f : A -> result B) l e :
  mapR f l = Raise e -> exists a, a ∈ l /\ f a = Raise e.
Proof.
  induction l as [|a l IH]; simpl; [discriminate|].
  destruct (f a) as [b|e'] eqn:Ea.
  - destruct (mapR f l); [discriminate|]. intros [= <-].
    destruct IH as (a' & Hin & Hf); [reflexivity|].
    exists a'. split; [by right | exact Hf].
  - intros [= <-]. exists a. split; [by left | exact Ea].
Qed.

Lemma rows_of_raise cur e : rows_of cur = Raise e -> exists msg, e = TypeError msg.
Proof.
  unfold rows_of. intros (r & _ & H)%mapR_raise.
  destruct cur.1; [discriminate|]. injection H as <-. eauto.
Qed.

Lemma json_value_raise v e : json_value v = Raise e -> exists msg, e = TypeError msg.
Proof. destruct v; simpl; try discriminate. intros [= <-]. eauto. Qed.

Lemma json_dict_raise level d e :
  json_dict level d = Raise e -> exists msg, e = TypeError msg.
Proof.
  unfold json_dict, mbind, result_bind.
  destruct (mapR json_item d) as [items|e'] eqn:E; [discriminate|].
  intros [= <-]. apply mapR_raise in E as (kv & _ & E).
  unfold json_item, mbind, result_bind in E.
  destruct (json_value kv.2) eqn:Ev; [discriminate|].
  injection E as <-. by eapply json_value_raise.
Qed.

Lemma json_dumps_raise rows e :
  json_dumps rows = Raise e -> exists msg, e = TypeError msg.
Proof.
  unfold json_dumps, mbind, result_bind.
  destruct (mapR (json_dict 1) rows) as [items|e'] eqn:E; [discriminate|].
  intros [= <-]. apply mapR_raise in E as (d & _ & E). by eapply json_dict_raise.
Qed.

(** The text [json.dumps] gives for a list starts with a bracket. *)
Lemma json_dumps_bracket rows text :
  json_dumps rows = Return text -> exists rest, text = 91 :: rest.
Proof.
  unfold json_dumps, mbind, result_bind.
  destruct (mapR (json_dict 1) rows) as [items|]; [|discriminate].
  intros [= <-]. destruct items; eexists; reflexivity.
Qed.

Lemma sql_error_caught_raise e w e' w' :
  sql_error_caught e w = (Raise e', w') -> e' = e /\ forall msg, e <> sqlite3_Error msg.
Proof. destruct e; simpl; intros [= <- <-]; split; try reflexivity; discriminate. Qed.

(** No store error leaves the executor as an exception. *)
Lemma run_sql_query_no_store_error eng upper query w msg :
  (run_sql_query eng upper query w).1 <> Raise (sqlite3_Error msg).
Proof.
  destruct (database w) as [[db|m]|] eqn:E.
  - destruct (has_table db TABLE) eqn:Ht.
    + rewrite (run_sql_query_ready _ _ _ _ _ E Ht).
      assert (forall e, (sql_error_caught e w).1 <> Raise (sqlite3_Error msg)) as Hc.
      { intros e. destruct e; simpl; discriminate. }
      destruct (execute eng db query []) as [e|db' d rows n]; [apply Hc|].
      destruct (is_select upper query); [|discriminate].
      destruct (rows_of (d, rows)) as [rs|e]; [|apply Hc].
      destruct (json_dumps (take 20 rs)) as [text|e]; [discriminate | apply Hc].
    + erewrite run_sql_query_unready; [discriminate|].
      rewrite db_ready_spec, E, Ht. reflexivity.
  - erewrite run_sql_query_unready; [discriminate|].
    rewrite db_ready_spec, E. reflexivity.
  - erewrite run_sql_query_unready; [discriminate|].
    rewrite db_ready_spec, E. reflexivity.
Qed.

Lemma run_tool_calls_no_store_error eng upper calls msgs w msg :
  (run_tool_calls eng upper calls msgs w).1.1 <> Raise (sqlite3_Error msg).
Proof.
  revert msgs w. induction calls as [|call calls IH]; intros msgs w; simpl; [discriminate|].
  destruct (call_query call) as [sql|]; [|discriminate].
  pose proof (run_sql_query_no_store_error eng upper sql w msg) as H.
  destruct (run_sql_query eng upper sql w) as [[res|e] w']; [apply IH|].
  simpl in *. intros [= ->]. by apply H.
Qed.

(** The executor never answers with the text [No rows.]. *)
Lemma run_sql_query_never_no_rows eng upper query w :
  (run_sql_query eng upper query w).1 <> Return (lit "No rows.").
Proof.
  assert (forall e, (sql_error_caught e w).1 <> Return (lit "No rows.")) as Hc.
  { intros e. destruct e; simpl; discriminate. }
  destruct (database w) as [[db|m]|] eqn:E.
  - destruct (has_table db TABLE) eqn:Ht.
    + rewrite (run_sql_query_ready _ _ _ _ _ E Ht).
      destruct (execute eng db query []) as [e|db' d rows n]; [apply Hc|].
      destruct (is_select upper query); [|discriminate].
      destruct (rows_of (d, rows)) as [rs|e]; [|apply Hc].
      destruct (json_dumps (take 20 rs)) as [text|e] eqn:Ej; [|apply Hc].
      apply json_dumps_bracket in Ej as [rest ->]. discriminate.
    + erewrite run_sql_query_unready; [discriminate|].
      rewrite db_ready_spec, E, Ht. reflexivity.
  - erewrite run_sql_query_unready; [discriminate|].
    rewrite db_ready_spec, E. reflexivity.
  - erewrite run_sql_query_unready; [discriminate|].
    rewrite db_ready_spec, E. reflexivity.
Qed.

(** C1, at the input where the code departs from the claim. A select on a
    ready store whose result set is empty is answered with the text of the
    empty JSON list, which is not the [No rows.] message. *)
Theorem run_sql_query_empty_select
  (eng : Engine) (upper : pystr -> pystr) (query : pystr) (w : World)
  (db db' : Db) (description : option (list pystr)) (changes : nat) :
  database w = Some (Database db) ->
  has_table db TABLE = true ->
  is_select upper query = true ->
  execute eng db query [] = ExecOk db' description [] changes ->
  (run_sql_query eng upper query w).1 = Return (lit "[]")
  /\ lit "[]" <> lit "No rows.".
Proof.
  intros E Ht Hs Hx. split; [|discriminate].
  rewrite (run_sql_query_ready _ _ _ _ _ E Ht), Hx, Hs. reflexivity.
Qed.

Lemma run_sql_query_empty_select_witness :
  (run_sql_query demo_engine ascii_upper SELECT_NONE ready_world).1 = Return (lit "[]")
  /\ lit "[]" <> lit "No rows.".
Proof.
  apply (run_sql_query_empty_select demo_engine ascii_upper SELECT_NONE ready_world
           demo_db demo_db (Some [lit "name"; lit "score"]) 0);
    vm_compute; reflexivity.
Defined.




(** The part of C7 the code keeps. A statement the store rejects with an
    [sqlite3.Error] on a ready store is answered with [SQL error: ] followed
    by the error's text, and the store is left as it was; the loop over an
    agent's invocations hands that text to the agent as the invocation's
    tool message and goes on with the next invocation; no [sqlite3.Error]
    ever leaves the executor or that loop as an exception. *)
Theorem run_sql_query_catches_store_errors
  (eng : Engine) (upper : pystr -> pystr) :
  (forall query w db msg,
     database w = Some (Database db) ->
     has_table db TABLE = true ->
     execute eng db query [] = ExecRaise (sqlite3_Error msg) ->
     run_sql_query eng upper query w = (Return (lit "SQL error: " ++ msg), w))
  /\ (forall call calls msgs query w db msg,
        database w = Some (Database db) ->
        has_table db TABLE = true ->
        call_query call = Some query ->
        execute eng db query [] = ExecRaise (sqlite3_Error msg) ->
        run_tool_calls eng upper (call :: calls) msgs w
        = run_tool_calls eng upper calls
            (msgs ++ [tool_message call (lit "SQL error: " ++ msg)]) w)
  /\ (forall query w msg,
        (run_sql_query eng upper query w).1 <> Raise (sqlite3_Error msg))
  /\ (forall calls msgs w msg,
        (run_tool_calls eng upper calls msgs w).1.1 <> Raise (sqlite3_Error msg)).
Proof.
  split_and!.
  - intros query w db msg E Ht Hx.
    rewrite (run_sql_query_ready _ _ _ _ _ E Ht), Hx. reflexivity.
  - intros call calls msgs query w db msg E Ht Hq Hx. cbn [run_tool_calls].
    rewrite Hq, (run_sql_query_ready _ _ _ _ _ E Ht), Hx. reflexivity.
  - intros. apply run_sql_query_no_store_error.
  - intros. apply run_tool_calls_no_store_error.
Qed.

Lemma run_sql_query_catches_store_errors_witness :
  run_sql_query demo_engine ascii_upper MISSPELT ready_world
  = (Return (lit "SQL error: " ++ near_SELEC), ready_world).
Proof.
  destruct (run_sql_query_catches_store_errors demo_engine ascii_upper) as [H _].
  apply (H MISSPELT ready_world demo_db near_SELEC); vm_compute; reflexivity.
Defined.

(** C7, at the input where the code departs from the claim. A statement
    whose execution on a ready store fails with an exception that is not an
    [sqlite3.Error] is not answered with a text: the exception leaves the
    executor, and a chat invocation whose agent asks for that statement on
    its first turn ends with that exception, after the one request. *)
Theorem run_sql_query_uncaught_fault
  (eng : Engine) (upper : pystr -> pystr) (agent : Agent) (api_key prompt : pystr)
  (query : pystr) (w : World) (db : Db) (e : exn)
  (m : AgentMessage) (call : ToolCall) (calls : list ToolCall) :
  database w = Some (Database db) ->
  has_table db TABLE = true ->
  execute eng db query [] = ExecRaise e ->
  (forall msg, e <> sqlite3_Error msg) ->
  api_key <> [] ->
  agent (seed prompt) = Return m ->
  tool_calls m = Some (call :: calls) ->
  call_query call = Some query ->
  run_sql_query eng upper query w = (Raise e, w)
  /\ chat eng upper agent api_key prompt w = (Raise e, add_request (seed prompt) w).
Proof.
  intros E Ht Hx He Hk Ha Hc Hq.
  assert (forall w0, database w0 = Some (Database db) ->
                     run_sql_query eng upper query w0 = (Raise e, w0)) as Hrun.
  { intros w0 E0. rewrite (run_sql_query_ready _ _ _ _ _ E0 Ht), Hx.
    destruct e; try reflexivity. by destruct (He msg). }
  split; [by apply Hrun|].
  unfold chat, chat_run. destruct api_key as [|k key]; [contradiction|].
  cbn [chat_rounds]. fold (seed prompt). rewrite Ha, Hc. cbn [run_tool_calls].
  rewrite Hq, (Hrun (add_request (seed prompt) w) E). reflexivity.
Qed.

Lemma run_sql_query_uncaught_fault_witness :
  run_sql_query strict_engine ascii_upper SURROGATE_QUERY ready_world
  = (Raise (surrogates_not_allowed 55296 8), ready_world)
  /\ chat strict_engine ascii_upper surrogate_agent (lit "key") (lit "hi") ready_world
     = (Raise (surrogates_not_allowed 55296 8),
        add_request (seed (lit "hi")) ready_world).
Proof.
  apply (run_sql_query_uncaught_fault strict_engine ascii_upper surrogate_agent
           (lit "key") (lit "hi") SURROGATE_QUERY ready_world demo_db
           (surrogates_not_allowed 55296 8)
           {| content := None; tool_calls := Some [surrogate_call] |}
           surrogate_call []);
    try (vm_compute; reflexivity); discriminate.
Defined.



(** ** Dataset Importer *)



(** C4, at the input where the code departs from the claim. On a file that
    exists and holds no record, reading the header raises [StopIteration],
    which no [except] clause of the importer matches: the call raises, after
    the store file has been created if there was none. *)
Theorem import_csv_empty_file_raises (eng : Engine) (csv_file : Path) (w : World) :
  csv_files w !! path_str csv_file = Some (Text []) ->
  (import_csv eng csv_file w).1 = Raise StopIteration
  /\ database (import_csv eng csv_file w).2
     = Some (match database w with Some f => f | None => Database [] end).
Proof.
  intros H. unfold import_csv. rewrite H.
  unfold try_except, with_connection, mbind, M_bind, connect, lift. simpl.
  destruct (database w) as [f|] eqn:E; simpl; rewrite ?E; split; reflexivity.
Qed.

Lemma import_csv_empty_file_raises_witness :
  (import_csv demo_engine empty_csv empty_csv_world).1 = Raise StopIteration.
Proof.
  apply (import_csv_empty_file_raises demo_engine empty_csv empty_csv_world).
  vm_compute. reflexivity.
Defined.

(** ** Tool-Mediated Chat Loop *)

(** The executor writes nothing to the output and sends nothing to the
    agent. *)
Lemma run_sql_query_world eng upper query w :
  stdout (run_sql_query eng upper query w).2 = stdout w
  /\ requests (run_sql_query eng upper query w).2 = requests w.
Proof.
  assert (forall e, stdout (sql_error_caught e w).2 = stdout w
                    /\ requests (sql_error_caught e w).2 = requests w) as Hc.
  { intros e. destruct e; split; reflexivity. }
  destruct (database w) as [[db|m]|] eqn:E.
  - destruct (has_table db TABLE) eqn:Ht.
    + rewrite (run_sql_query_ready _ _ _ _ _ E Ht).
      destruct (execute eng db query []) as [e|db' d rows n]; [apply Hc|].
      destruct (is_select upper query); [|split; reflexivity].
      destruct (rows_of (d, rows)) as [rs|e]; [|apply Hc].
      destruct (json_dumps (take 20 rs)) as [text|e]; [split; reflexivity | apply Hc].
    + erewrite run_sql_query_unready; [split; reflexivity|].
      rewrite db_ready_spec, E, Ht. reflexivity.
  - erewrite run_sql_query_unready;
      [|rewrite db_ready_spec, E; reflexivity]. split; reflexivity.
  - erewrite run_sql_query_unready;
      [|rewrite db_ready_spec, E; reflexivity]. split; reflexivity.
Qed.

Lemma tool_results_app msgs msgs' :
  tool_results (msgs ++ msgs') = (tool_results msgs + tool_results msgs')%nat.
Proof. unfold tool_results. rewrite List.filter_app, length_app. reflexivity. Qed.

Lemma invocations_app msgs msgs' :
  invocations (msgs ++ msgs') = (invocations msgs + invocations msgs')%nat.
Proof.
  induction msgs as [|m msgs IH]; [reflexivity|].
  destruct m; simpl; rewrite IH; lia.
Qed.

Lemma tool_results_tool id name text : tool_results [ToolMsg id name text] = 1%nat.
Proof. reflexivity. Qed.

Lemma invocations_tool id name text : invocations [ToolMsg id name text] = 0%nat.
Proof. reflexivity. Qed.

(** One turn's tool invocations: the output and the requests are untouched,
    no agent message is added, and when every call returns there is one tool
    message more per call. *)
Lemma run_tool_calls_spec eng upper calls msgs w r msgs' w' :
  run_tool_calls eng upper calls msgs w = (r, msgs', w') ->
  stdout w' = stdout w
  /\ requests w' = requests w
  /\ invocations msgs' = invocations msgs
  /\ (tool_results msgs' <= tool_results msgs + length calls)%nat
  /\ (r = Return tt -> tool_results msgs' = (tool_results msgs + length calls)%nat).
Proof.
  revert msgs w. induction calls as [|call calls IH]; intros msgs w; simpl.
  - intros [= <- <- <-]. split_and!; try reflexivity; lia.
  - destruct (call_query call) as [sql|].
    + pose proof (run_sql_query_world eng upper sql w) as [Hs Hq].
      destruct (run_sql_query eng upper sql w) as [[res|e] w1]; simpl in Hs, Hq.
      * intros H. apply IH in H as (H1 & H2 & H3 & H4 & H5).
        rewrite tool_results_app, invocations_app in *.
        rewrite tool_results_tool, invocations_tool in *.
        split_and!; [congruence | congruence | lia | lia |].
        intros Hr. rewrite (H5 Hr). lia.
      * intros [= <- <- <-]. split_and!; try done; lia.
    + intros [= <- <- <-]. split_and!; try done; lia.
Qed.

(** [n] more rounds: at most [n] requests to the agent; and with an agent
    that asks for tools whenever it answers, nothing is printed, and a run
    that returns has made [n] requests, has logged the warning last, and has
    one tool message for each invocation the agent asked for. *)
Lemma chat_rounds_spec eng upper (agent : Agent) n :
  forall msgs w r msgs' w',
  chat_rounds eng upper agent n msgs w = (r, msgs', w') ->
  (length (requests w') <= length (requests w) + n)%nat
  /\ ((forall ms m, agent ms = Return m -> tool_calls m <> None) ->
      stdout w' = stdout w
      /\ (r = Return tt ->
          length (requests w') = (length (requests w) + n)%nat
          /\ last (log w') = Some (WARNING, lit "Tool-call budget exceeded.")
          /\ (tool_results msgs' + invocations msgs
              = tool_results msgs + invocations msgs')%nat)).
Proof.
  induction n as [|n IH]; intros msgs w r msgs' w'; simpl.
  - intros [= <- <- <-]. simpl. split; [lia|]. intros _. split; [reflexivity|].
    intros _. split_and!; [lia | apply last_snoc | lia].
  - destruct (agent msgs) as [msg|e] eqn:Ea.
    + destruct (tool_calls msg) as [calls|] eqn:Et.
      * destruct (run_tool_calls eng upper calls (msgs ++ [AssistantMsg msg])
                    (add_request msgs w)) as [[r1 msgs1] w1] eqn:Er.
        apply run_tool_calls_spec in Er as (H1 & H2 & H3 & H4 & H5).
        rewrite invocations_app in H3. rewrite tool_results_app in H4, H5.
        assert (invocations [AssistantMsg msg] = length calls) as Hi
          by (simpl; rewrite Et; lia).
        change (tool_results [AssistantMsg msg]) with 0%nat in H4, H5.
        simpl in H1. apply (f_equal length) in H2.
        simpl in H2. rewrite length_app in H2. simpl in H2.
        destruct r1 as [[]|e].
        -- intros H. apply IH in H as [Hle Hrest]. split; [lia|].
           intros Ha. destruct (Hrest Ha) as [Hs Hret].
           split; [congruence|]. intros Hr.
           destruct (Hret Hr) as (Hn & Hl & Hc). specialize (H5 eq_refl).
           split_and!; [lia | exact Hl | lia].
        -- intros [= <- <- <-]. split; [lia|]. intros _.
           split; [exact H1 | discriminate].
      * destruct (content msg) as [text|].
        -- intros [= <- <- <-]. simpl. rewrite length_app. simpl. split; [lia|].
           intros Ha. exfalso. exact (Ha _ _ Ea Et).
        -- intros [= <- <- <-]. simpl. rewrite length_app. simpl. split; [lia|].
           intros Ha. exfalso. exact (Ha _ _ Ea Et).
    + intros [= <- <- <-]. simpl. rewrite length_app. simpl. split; [lia|].
      intros _. split; [reflexivity | discriminate].
Qed.








(** * Further properties *)

(** ** Column Normalizer *)

Lemma clean_replaced s : _clean s = replaced (strip s).
Proof. reflexivity. Qed.

Lemma replaced_step c t : replaced (c :: t) = clean_char c ++ replaced t.
Proof. apply replaced_cons. Qed.

(** X1. A token with no whitespace, hyphen or period comes back unchanged. *)
Theorem clean_plain_unchanged (s : pystr) :
  forallb plain_char s = true -> _clean s = s.
Proof.
  intros H. rewrite forallb_forall in H.
  assert (forall c, c ∈ s -> isspace c = false /\ c <> HYPHEN /\ c <> PERIOD) as Hs.
  { intros c Hc%list_elem_of_In. specialize (H c Hc). unfold plain_char in H.
    apply andb_prop in H as [H Hp]. apply andb_prop in H as [Hw Hh].
    apply negb_true_iff in Hw, Hh, Hp. apply N.eqb_neq in Hh, Hp. auto. }
  apply clean_fixed.
  - apply strip_fixed.
    + intros c Hc. apply Hs. destruct s; [discriminate|]. injection Hc as ->. left.
    + intros c Hc. apply Hs. destruct s as [|d t _] using rev_ind; [discriminate|].
      rewrite last_snoc in Hc. injection Hc as ->. apply elem_of_app. right. left.
  - intros Hc. apply Hs in Hc as [Hc _]. discriminate Hc.
  - intros Hc. apply Hs in Hc as (_ & Hc & _). contradiction.
  - intros Hc. apply Hs in Hc as (_ & _ & Hc). contradiction.
Qed.

Lemma clean_plain_unchanged_witness : _clean (lit "Job_Category2") = lit "Job_Category2".
Proof. apply clean_plain_unchanged. vm_compute. reflexivity. Defined.

Lemma clean_char_nil c : clean_char c = [] <-> c = PERIOD.
Proof.
  split.
  - intros H. destruct (N.eq_dec c PERIOD) as [|Hn]; [assumption|].
    destruct (clean_char_kept c Hn) as (d & E & _). rewrite E in H. discriminate.
  - intros ->. reflexivity.
Qed.

Lemma replaced_nil t : replaced t = [] <-> Forall (fun c => c = PERIOD) t.
Proof.
  induction t as [|c t IH]; [split; [constructor | reflexivity]|].
  rewrite replaced_step. split.
  - intros [Hc Ht]%app_eq_nil. constructor; [by apply clean_char_nil | by apply IH].
  - intros H. inversion H as [|? ? Hc Ht]; subst.
    rewrite (proj2 (clean_char_nil PERIOD) eq_refl). simpl. by apply IH.
Qed.

(** X2. The normalizer gives the empty identifier exactly for the tokens
    that, once trimmed, consist of periods only (the empty token among
    them). *)
Theorem clean_empty_iff (s : pystr) :
  _clean s = [] <-> Forall (fun c => c = PERIOD) (strip s).
Proof. rewrite clean_replaced. apply replaced_nil. Qed.

Lemma strip_strip s : strip (strip s) = strip s.
Proof. apply strip_fixed; [apply head_strip | apply last_strip]. Qed.

(** X3. A second pass of the normalizer only trims, and the result of two
    passes is a fixed point. *)
Theorem clean_twice_stable (s : pystr) :
  _clean (_clean s) = strip (_clean s)
  /\ _clean (_clean (_clean s)) = _clean (_clean s).
Proof.
  split; [apply clean_clean_strip|].
  rewrite (clean_clean_strip s). apply clean_fixed.
  - apply strip_strip.
  - intros H%strip_sublist. by apply (clean_no_space s).
  - intros H%strip_sublist. by apply (clean_no_hyphen s).
  - intros H%strip_sublist. by apply (clean_no_period s).
Qed.

Lemma length_lstrip s : (length (lstrip s) <= length s)%nat.
Proof.
  destruct (lstrip_suffix s) as [ws E]. rewrite E at 2. rewrite length_app. lia.
Qed.

Lemma length_strip s : (length (strip s) <= length s)%nat.
Proof.
  unfold strip, rstrip. rewrite length_reverse.
  pose proof (length_lstrip (reverse (lstrip s))) as H1.
  rewrite length_reverse in H1. pose proof (length_lstrip s). lia.
Qed.

Lemma length_replaced t : (length (replaced t) <= length t)%nat.
Proof.
  induction t as [|c t IH]; [reflexivity|].
  rewrite replaced_step, length_app. simpl.
  destruct (N.eq_dec c PERIOD) as [->|Hn]; [simpl; lia|].
  destruct (clean_char_kept c Hn) as (d & -> & _). simpl. lia.
Qed.

(** X4. The normalizer never lengthens a token. *)
Theorem clean_length (s : pystr) : (length (_clean s) <= length s)%nat.
Proof.
  rewrite clean_replaced. pose proof (length_replaced (strip s)).
  pose proof (length_strip s). lia.
Qed.

(** ** Rows and their JSON text *)

Lemma dict_set_fresh k v (d : pydict) : k ∉ d.*1 -> dict_set k v d = d ++ [(k, v)].
Proof.
  induction d as [|[k' v'] d IH]; [reflexivity|]. simpl.
  intros [Hk Hd]%not_elem_of_cons. rewrite decide_False by exact Hk.
  rewrite (IH Hd). reflexivity.
Qed.

Lemma dict_set_keys k v (d : pydict) :
  (dict_set k v d).*1 = if decide (k ∈ d.*1) then d.*1 else d.*1 ++ [k].
Proof.
  induction d as [|[k' v'] d IH]; [reflexivity|].
  cbn [dict_set]. rewrite !fmap_cons. cbn [fst].
  destruct (decide (k = k')) as [->|Hne].
  - rewrite decide_True by left. reflexivity.
  - rewrite fmap_cons, IH. cbn [fst]. destruct (decide (k ∈ d.*1)) as [Hin|Hout].
    + rewrite decide_True by (by right). reflexivity.
    + rewrite decide_False; [reflexivity|].
      intros [?|?]%elem_of_cons; contradiction.
Qed.

Lemma fold_dict_set_fresh (pairs : list (pystr * value)) (acc : pydict) :
  NoDup pairs.*1 ->
  (forall k, k ∈ pairs.*1 -> k ∉ acc.*1) ->
  fold_left (fun d kv => dict_set kv.1 kv.2 d) pairs acc = acc ++ pairs.
Proof.
  revert acc. induction pairs as [|[k v] pairs IH]; intros acc Hnd Hfresh.
  - simpl. by rewrite app_nil_r.
  - simpl in *. apply NoDup_cons in Hnd as [Hk Hnd].
    rewrite dict_set_fresh by (apply Hfresh; left).
    rewrite IH; [by rewrite <- app_assoc | exact Hnd |].
    intros k' Hk'. rewrite fmap_app. simpl. intros [Hin|Hin]%elem_of_app.
    + apply (Hfresh k'); [by right | exact Hin].
    + apply list_elem_of_singleton in Hin as ->. contradiction.
Qed.

Lemma zip_keys_sublist (names : list pystr) (r : list value) :
  sublist (zip names r).*1 names.
Proof.
  revert r. induction names as [|k names IH]; intros r; [constructor|].
  destruct r as [|v r]; simpl; [apply sublist_nil_l|].
  apply sublist_skip, IH.
Qed.

Lemma dict_zip_nodup (names : list pystr) (r : list value) :
  NoDup names -> dict (zip names r) = zip names r.
Proof.
  intros Hnd. unfold dict. rewrite fold_dict_set_fresh; [reflexivity | |].
  - eapply sublist_NoDup; [exact Hnd | apply zip_keys_sublist].
  - intros k _ Hk. inversion Hk.
Qed.

(** X5. When the column names of a cursor are distinct, the mapping built
    for a row pairs each name with the row's value, in column order. *)
Theorem dict_zip_distinct (names : list pystr) (r : list value) :
  NoDup names -> dict (zip names r) = zip names r.
Proof. apply dict_zip_nodup. Qed.

Lemma dict_zip_distinct_witness :
  dict (zip [lit "name"; lit "score"] [VText (lit "a"); VInt 1])
  = [(lit "name", VText (lit "a")); (lit "score", VInt 1)].
Proof.
  apply (dict_zip_distinct [lit "name"; lit "score"] [VText (lit "a"); VInt 1]).
  apply (bool_decide_unpack (NoDup [lit "name"; lit "score"])). vm_compute. exact I.
Defined.

Lemma fold_dict_set_keys (pairs : list (pystr * value)) (acc : pydict) :
  NoDup acc.*1 ->
  NoDup (fold_left (fun d kv => dict_set kv.1 kv.2 d) pairs acc).*1
  /\ forall k, k ∈ (fold_left (fun d kv => dict_set kv.1 kv.2 d) pairs acc).*1
               <-> k ∈ acc.*1 \/ k ∈ pairs.*1.
Proof.
  revert acc. induction pairs as [|[k v] pairs IH]; intros acc Hnd; simpl.
  - split; [exact Hnd|]. intros k. split; [by left | intros [H|H]; [exact H | inversion H]].
  - assert (NoDup (dict_set k v acc).*1) as Hnd'.
    { rewrite dict_set_keys. destruct (decide (k ∈ acc.*1)); [exact Hnd|].
      apply NoDup_app. split_and!; [exact Hnd | | apply NoDup_singleton].
      intros x Hx ->%list_elem_of_singleton. contradiction. }
    destruct (IH _ Hnd') as [H1 H2]. split; [exact H1|].
    intros k'. rewrite H2, dict_set_keys, elem_of_cons.
    destruct (decide (k ∈ acc.*1)) as [Hin|Hout].
    + split; [intros [?|?]; auto | intros [?|[->|?]]; auto].
    + rewrite elem_of_app, list_elem_of_singleton. tauto.
Qed.

(** X6. The mapping built for a row has one entry per distinct column name:
    its keys are distinct, and they are the names that were paired. *)
Theorem dict_keys_distinct (pairs : list (pystr * value)) :
  NoDup (dict pairs).*1 /\ forall k, k ∈ (dict pairs).*1 <-> k ∈ pairs.*1.
Proof.
  unfold dict. destruct (fold_dict_set_keys pairs []) as [H1 H2]; [constructor|].
  split; [exact H1|]. intros k. rewrite H2. simpl.
  split; [intros [H|H]; [inversion H | exact H] | by right].
Qed.

Lemma hex_digit_ascii d : d < 16 -> 32 <= hex_digit d <= 126.
Proof. unfold hex_digit. intros H. destruct (N.ltb_spec d 10); lia. Qed.

Lemma u_escape_ascii n c : c ∈ u_escape n -> 32 <= c <= 126.
Proof.
  unfold u_escape, BACKSLASH. intros H.
  repeat (apply elem_of_cons in H as [->|H]);
    try (apply hex_digit_ascii, N.mod_lt; lia); try lia.
  inversion H.
Qed.

Lemma escape_char_ascii c d : d ∈ escape_char c -> 32 <= d <= 126.
Proof.
  unfold escape_char, QUOTE, BACKSLASH.
  repeat (destruct (_ =? _);
          [intros H; repeat (apply elem_of_cons in H as [->|H]); try lia; inversion H|]).
  destruct (andb _ _) eqn:E.
  - intros ->%list_elem_of_singleton. apply andb_prop in E as [?%N.leb_le ?%N.leb_le]. lia.
  - destruct (c <? 65536); [apply u_escape_ascii|].
    intros [H|H]%elem_of_app; eapply u_escape_ascii; exact H.
Qed.

(** The JSON text of a string holds printable ASCII only, whatever code
    points the string has. *)
Lemma json_str_ascii (s : pystr) :
  Forall (fun c => 32 <= c <= 126) (json_str s).
Proof.
  apply Forall_forall. intros c.
  unfold json_str, QUOTE. rewrite !elem_of_app.
  intros [H|[H|H]]; try (apply list_elem_of_singleton in H as ->; lia).
  apply list_elem_of_In, in_flat_map in H as (x & _ & H).
  apply (escape_char_ascii x). by apply list_elem_of_In.
Qed.

Ltac safe_lit :=
  match goal with
  | |- Forall ?P ?l => let l' := eval vm_compute in l in change (Forall P l')
  end;
  repeat (apply Forall_cons_2;
          [first [left; reflexivity | right; compute; split; discriminate]|]);
  apply Forall_nil_2.

Lemma safe_printable s : Forall (fun c => 32 <= c <= 126) s -> Forall transport_safe s.
Proof. intros H. eapply Forall_impl; [exact H|]. intros c Hc. by right. Qed.

Lemma uint_safe d : Forall transport_safe (lit (NilEmpty.string_of_uint d)).
Proof.
  induction d; simpl; [constructor|..];
    (constructor; [right; compute; split; discriminate | assumption]).
Qed.

Lemma str_of_Z_safe z : Forall transport_safe (str_of_Z z).
Proof.
  unfold str_of_Z, NilZero.string_of_int, NilZero.string_of_uint.
  destruct (Z.to_int z) as [d|d].
  - destruct d; try apply uint_safe.
    constructor; [right; compute; split; discriminate | constructor].
  - simpl. constructor; [right; compute; split; discriminate|].
    destruct d; try apply uint_safe.
    constructor; [right; compute; split; discriminate | constructor].
Qed.

Lemma join_safe sep parts :
  Forall transport_safe sep -> Forall (Forall transport_safe) parts ->
  Forall transport_safe (join sep parts).
Proof.
  intros Hsep Hparts. induction Hparts as [|x parts Hx Hparts IH]; [constructor|].
  simpl. destruct parts as [|y parts]; [exact Hx|].
  apply Forall_app. split; [exact Hx|]. apply Forall_app. split; [exact Hsep | exact IH].
Qed.

Lemma indent_safe level : Forall transport_safe (indent level).
Proof.
  unfold indent. induction (2 * level)%nat as [|n IH]; simpl; [constructor|].
  constructor; [right; compute; split; discriminate | exact IH].
Qed.

Lemma separator_safe level :
  Forall transport_safe (lit "," ++ [NEWLINE] ++ indent level).
Proof.
  apply Forall_app. split; [safe_lit|].
  apply Forall_app. split; [safe_lit | apply indent_safe].
Qed.

Lemma mapR_return {A B} (f : A -> result B) l bs :
  mapR f l = Return bs -> Forall2 (fun a b => f a = Return b) l bs.
Proof.
  revert bs. induction l as [|a l IH]; intros bs; simpl.
  - intros [= <-]. constructor.
  - destruct (f a) as [b|] eqn:Ea; [|discriminate].
    destruct (mapR f l) as [bs'|]; [|discriminate].
    intros [= <-]. constructor; [exact Ea | by apply IH].
Qed.

Lemma json_dict_safe level (d : pydict) text :
  (forall k repr, (k, VReal repr) ∈ d -> Forall transport_safe repr) ->
  json_dict level d = Return text -> Forall transport_safe text.
Proof.
  intros Hreal. unfold json_dict, mbind, result_bind.
  destruct (mapR json_item d) as [items|] eqn:E; [|discriminate].
  intros Ht. apply mapR_return in E.
  assert (text = match items with
                 | [] => lit "{}"
                 | _ => lit "{" ++ [NEWLINE] ++ indent (S level)
                        ++ join (lit "," ++ [NEWLINE] ++ indent (S level)) items
                        ++ [NEWLINE] ++ indent level ++ lit "}"
                 end) as -> by congruence.
  clear Ht.
  assert (Forall (Forall transport_safe) items) as Hitems.
  { clear -E Hreal. induction E as [|[k v] item d items Hi _ IH]; [constructor|].
    constructor.
    - unfold json_item, mbind, result_bind in Hi. cbn [fst snd] in Hi.
      destruct (json_value v) as [vt|] eqn:Ev; [|discriminate].
      replace item with (json_str k ++ lit ": " ++ vt) by congruence.
      apply Forall_app. split; [apply safe_printable, json_str_ascii|].
      apply Forall_app. split; [safe_lit|].
      destruct v; simpl in Ev; try discriminate; injection Ev as <-.
      + safe_lit.
      + apply str_of_Z_safe.
      + apply (Hreal k). left.
      + apply safe_printable, json_str_ascii.
    - apply IH. intros k' repr Hin. apply (Hreal k'). by right. }
  destruct items as [|item items]; [safe_lit|].
  repeat (apply Forall_app; split);
    first [apply indent_safe
          | apply join_safe; [apply separator_safe | exact Hitems]
          | safe_lit].
Qed.

(** X7. The text the executor builds for the rows of a select holds only
    newlines and printable ASCII, whatever code points the column names and
    the text values have, as long as the texts that stand for the REAL
    values do. *)
Theorem json_dumps_transport_safe (rows : list pydict) (text : pystr) :
  (forall d k repr, d ∈ rows -> (k, VReal repr) ∈ d -> Forall transport_safe repr) ->
  json_dumps rows = Return text ->
  Forall transport_safe text.
Proof.
  intros Hreal. unfold json_dumps, mbind, result_bind.
  destruct (mapR (json_dict 1) rows) as [items|] eqn:E; [|discriminate].
  intros Ht. apply mapR_return in E.
  assert (text = match items with
                 | [] => lit "[]"
                 | _ => lit "[" ++ [NEWLINE] ++ indent 1
                        ++ join (lit "," ++ [NEWLINE] ++ indent 1) items
                        ++ [NEWLINE] ++ lit "]"
                 end) as -> by congruence.
  clear Ht.
  assert (Forall (Forall transport_safe) items) as Hitems.
  { clear -E Hreal. induction E as [|d item rows items Hi _ IH]; [constructor|].
    constructor.
    - eapply json_dict_safe; [|exact Hi]. intros k repr. apply Hreal. left.
    - apply IH. intros d' k repr Hin. apply Hreal. by right. }
  destruct items as [|item items]; [safe_lit|].
  repeat (apply Forall_app; split);
    first [apply indent_safe
          | apply join_safe; [apply separator_safe | exact Hitems]
          | safe_lit].
Qed.

Lemma json_dumps_transport_safe_witness :
  Forall transport_safe
    (lit "[" ++ [NEWLINE] ++ lit "  {" ++ [NEWLINE] ++ lit "    "
     ++ json_str [233; 10; 128512] ++ lit ": 1.5" ++ [NEWLINE] ++ lit "  }"
     ++ [NEWLINE] ++ lit "]").
Proof.
  apply (json_dumps_transport_safe [[([233; 10; 128512], VReal (lit "1.5"))]]).
  - intros d k repr Hd Hk. apply list_elem_of_singleton in Hd as ->.
    apply list_elem_of_singleton in Hk. injection Hk as _ ->.
    safe_lit.
  - vm_compute. reflexivity.
Defined.

Lemma mapR_raises {A B} (f : A -> result B) l a e :
  a ∈ l -> f a = Raise e -> exists e', mapR f l = Raise e'.
Proof.
  induction l as [|x l IH]; intros Hin Hf; [inversion Hin|]. simpl.
  destruct (f x) as [b|e0] eqn:Ex; [|eauto].
  apply elem_of_cons in Hin as [->|Hin]; [congruence|].
  destruct (IH Hin Hf) as [e' ->]. eauto.
Qed.

Lemma json_value_raise_iff v : (exists e, json_value v = Raise e) <-> exists b, v = VBlob b.
Proof.
  split.
  - intros [e H]. destruct v; try discriminate. eauto.
  - intros [b ->]. simpl. eauto.
Qed.

Lemma json_dict_raise_iff level (d : pydict) :
  (exists e, json_dict level d = Raise e) <-> exists k b, (k, VBlob b) ∈ d.
Proof.
  unfold json_dict, mbind, result_bind. split.
  - intros [e H]. destruct (mapR json_item d) as [items|e'] eqn:E; [discriminate|].
    apply mapR_raise in E as ([k v] & Hin & E).
    unfold json_item, mbind, result_bind in E. simpl in E.
    destruct (json_value v) eqn:Ev; [discriminate|].
    destruct (proj1 (json_value_raise_iff v)) as [b ->]; eauto.
  - intros (k & b & Hin).
    destruct (mapR_raises json_item d (k, VBlob b)
                (TypeError (lit "Object of type bytes is not JSON serializable")) Hin)
      as [e' ->]; [reflexivity | eauto].
Qed.

Lemma json_dumps_raise_iff (rows : list pydict) :
  (exists e, json_dumps rows = Raise e)
  <-> exists d k b, d ∈ rows /\ (k, VBlob b) ∈ d.
Proof.
  unfold json_dumps, mbind, result_bind. split.
  - intros [e H]. destruct (mapR (json_dict 1) rows) as [items|e'] eqn:E; [discriminate|].
    apply mapR_raise in E as (d & Hin & E).
    destruct (proj1 (json_dict_raise_iff 1 d)) as (k & b & Hb); eauto.
  - intros (d & k & b & Hin & Hb).
    destruct (proj2 (json_dict_raise_iff 1 d)) as [e He]; [eauto|].
    destruct (mapR_raises (json_dict 1) rows d e Hin He) as [e' ->]. eauto.
Qed.

(** X8. Serializing rows fails exactly when some row holds a BLOB, and then
    with a [TypeError]. *)
Theorem json_dumps_fails_on_blob (rows : list pydict) :
  ((exists e, json_dumps rows = Raise e)
   <-> exists d k b, d ∈ rows /\ (k, VBlob b) ∈ d)
  /\ forall e, json_dumps rows = Raise e -> exists msg, e = TypeError msg.
Proof. split; [apply json_dumps_raise_iff | apply json_dumps_raise]. Qed.

(** ** Query Executor *)

Lemma mapR_total {A B} (g : A -> B) l : mapR (fun a => Return (g a)) l = Return (map g l).
Proof. induction l as [|a l IH]; [reflexivity|]. simpl. rewrite IH. reflexivity. Qed.

Lemma rows_of_named names fetched :
  rows_of (Some names, fetched) = Return (map (fun r => dict (zip names r)) fetched).
Proof. unfold rows_of. simpl. apply mapR_total. Qed.

Lemma py_or_bracket rows text other : json_dumps rows = Return text -> py_or text other = text.
Proof. intros [rest ->]%json_dumps_bracket. reflexivity. Qed.

Lemma mapR_raise_same {A B} (f : A -> result B) l e0 :
  (forall a e, f a = Raise e -> e = e0) -> forall e, mapR f l = Raise e -> e = e0.
Proof. intros Hf e (a & _ & H)%mapR_raise. eauto. Qed.

Lemma json_dumps_raise_exn rows e : json_dumps rows = Raise e -> e = NOT_SERIALIZABLE.
Proof.
  unfold json_dumps, mbind, result_bind.
  destruct (mapR (json_dict 1) rows) as [items|e'] eqn:E; [discriminate|].
  intros [= <-]. revert e' E. apply mapR_raise_same. intros d e.
  unfold json_dict, mbind, result_bind.
  destruct (mapR json_item d) as [items|e'] eqn:E; [discriminate|].
  intros [= <-]. revert e' E. apply mapR_raise_same. intros [k v] e'.
  unfold json_item, mbind, result_bind. simpl.
  destruct v; simpl; try discriminate. by intros [= <-].
Qed.

(** X9. On a ready store, a select that the engine runs is answered with the
    JSON text of its first 20 rows, each as a mapping from the column names,
    and what the statement did is committed; when that text cannot be built
    the exception leaves the executor and the store is as before. Rows after
    the twentieth have no influence. *)
Theorem run_sql_query_select_first_rows
  (eng : Engine) (upper : pystr -> pystr) (query : pystr) (w : World)
  (db db' : Db) (names : list pystr) (fetched : list (list value)) (changes : nat) :
  database w = Some (Database db) ->
  has_table db TABLE = true ->
  is_select upper query = true ->
  execute eng db query [] = ExecOk db' (Some names) fetched changes ->
  run_sql_query eng upper query w
  = match json_dumps (map (fun r => dict (zip names r)) (take 20 fetched)) with
    | Return text => (Return text, set_database (Database db') w)
    | Raise e => (Raise e, w)
    end.
Proof.
  intros E Ht Hs Hx.
  rewrite (run_sql_query_ready _ _ _ _ _ E Ht), Hx, Hs, rows_of_named.
  rewrite <- fmap_take.
  destruct (json_dumps _) as [text|e] eqn:Ej.
  - by rewrite (py_or_bracket _ _ _ Ej).
  - apply json_dumps_raise_exn in Ej as ->. reflexivity.
Qed.

Lemma run_sql_query_select_first_rows_witness :
  run_sql_query demo_engine ascii_upper SELECT_ALL ready_world
  = match json_dumps (map (fun r => dict (zip [lit "name"; lit "score"] r))
                        (take 20 [[VText (lit "a"); VText (lit "1")];
                                  [VText (lit "b"); VText (lit "2")]])) with
    | Return text => (Return text, set_database (Database demo_db) ready_world)
    | Raise e => (Raise e, ready_world)
    end.
Proof.
  apply (run_sql_query_select_first_rows demo_engine ascii_upper SELECT_ALL ready_world
           demo_db demo_db [lit "name"; lit "score"] _ 0);
    vm_compute; reflexivity.
Defined.

(** X10. On a ready store, a select with distinct column names whose first
    20 rows hold a BLOB makes the executor raise a [TypeError], which its
    [except] clause does not catch; the store is left as it was. *)
Theorem run_sql_query_blob_raises
  (eng : Engine) (upper : pystr -> pystr) (query : pystr) (w : World)
  (db db' : Db) (names : list pystr) (fetched : list (list value)) (changes : nat)
  (r : list value) (k : pystr) (b : list N) :
  database w = Some (Database db) ->
  has_table db TABLE = true ->
  is_select upper query = true ->
  execute eng db query [] = ExecOk db' (Some names) fetched changes ->
  NoDup names ->
  r ∈ take 20 fetched ->
  (k, VBlob b) ∈ zip names r ->
  run_sql_query eng upper query w = (Raise NOT_SERIALIZABLE, w).
Proof.
  intros E Ht Hs Hx Hnd Hr Hk.
  rewrite (run_sql_query_ready _ _ _ _ _ E Ht), Hx, Hs, rows_of_named.
  rewrite <- fmap_take.
  destruct (proj2 (json_dumps_raise_iff
                     ((fun r => dict (zip names r)) <$> take 20 fetched))) as [e He].
  { exists (dict (zip names r)), k, b. split.
    - apply list_elem_of_fmap. eauto.
    - rewrite dict_zip_nodup by exact Hnd. exact Hk. }
  change (map ?f ?l) with (f <$> l). rewrite He.
  apply json_dumps_raise_exn in He as ->. reflexivity.
Qed.

Lemma run_sql_query_blob_raises_witness :
  run_sql_query demo_engine ascii_upper SELECT_ALL blob_world
  = (Raise NOT_SERIALIZABLE, blob_world).
Proof.
  apply (run_sql_query_blob_raises demo_engine ascii_upper SELECT_ALL blob_world
           blob_db blob_db [lit "name"; lit "photo"]
           [[VText (lit "a"); VNull]; [VText (lit "b"); VBlob [255; 216]]] 0
           [VText (lit "b"); VBlob [255; 216]] (lit "photo") [255; 216]);
    try (vm_compute; reflexivity).
  - apply (bool_decide_unpack (NoDup [lit "name"; lit "photo"])). vm_compute. exact I.
  - right. left.
  - right. left.
Defined.

(** The world the executor leaves has the store of the world it started in,
    or the one the engine reached. *)
Lemma run_sql_query_cases eng upper query w :
  let out := run_sql_query eng upper query w in
  (out.1 = Return (lit "Database not initialised.") /\ database out.2 = database w)
  \/ (exists msg, out.1 = Return (lit "SQL error: " ++ msg) /\ out.2 = w)
  \/ (exists e, out.1 = Raise e /\ out.2 = w)
  \/ (exists n, out.1 = Return (confirmation n) /\ is_select upper query = false)
  \/ (exists rest, out.1 = Return (91 :: rest) /\ is_select upper query = true).
Proof.
  assert (forall e, (exists msg, (sql_error_caught e w).1 = Return (lit "SQL error: " ++ msg)
                                 /\ (sql_error_caught e w).2 = w)
                    \/ (exists e', (sql_error_caught e w).1 = Raise e'
                                   /\ (sql_error_caught e w).2 = w)) as Hc.
  { intros e. destruct e; simpl; eauto. }
  simpl. destruct (database w) as [[db|m]|] eqn:E.
  - destruct (has_table db TABLE) eqn:Ht.
    + rewrite (run_sql_query_ready _ _ _ _ _ E Ht).
      destruct (execute eng db query []) as [e|db' d rows n].
      { destruct (Hc e) as [H|H]; auto. }
      destruct (is_select upper query) eqn:Hs.
      * destruct (rows_of (d, rows)) as [rs|e]; [|destruct (Hc e) as [H|H]; auto].
        destruct (json_dumps (take 20 rs)) as [text|e] eqn:Ej;
          [|destruct (Hc e) as [H|H]; auto].
        rewrite (py_or_bracket _ _ _ Ej).
        apply json_dumps_bracket in Ej as [rest ->]. do 4 right. eauto.
      * do 3 right. left. eauto.
    + erewrite run_sql_query_unready;
        [|rewrite db_ready_spec, E, Ht; reflexivity]. left. split; [reflexivity | exact E].
  - erewrite run_sql_query_unready;
      [|rewrite db_ready_spec, E; reflexivity]. left. split; [reflexivity | exact E].
  - erewrite run_sql_query_unready;
      [|rewrite db_ready_spec, E; reflexivity]. left. split; [reflexivity | exact E].
Qed.



(** X12. Every text the executor returns is the unavailability text, an
    [SQL error: ] text, a confirmation, or a text that starts with a bracket;
    a confirmation is returned only for a statement that is not a select, a
    bracketed text only for a select. The four kinds start with different
    characters. *)
Theorem run_sql_query_answer_shape
  (eng : Engine) (upper : pystr -> pystr) (query : pystr) (w : World) (text : pystr) :
  (run_sql_query eng upper query w).1 = Return text ->
  text = lit "Database not initialised."
  \/ (exists msg, text = lit "SQL error: " ++ msg)
  \/ (exists n, text = confirmation n /\ is_select upper query = false)
  \/ (exists rest, text = 91 :: rest /\ is_select upper query = true).
Proof.
  intros H.
  destruct (run_sql_query_cases eng upper query w)
    as [[Hr _]|[(m & Hr & _)|[(e & Hr & _)|[(n & Hr & Hs)|(rest & Hr & Hs)]]]];
    rewrite Hr in H; try discriminate H; injection H as <-; eauto 6.
Qed.

Lemma run_sql_query_answer_shape_witness :
  confirmation 2 = lit "Database not initialised."
  \/ (exists msg, confirmation 2 = lit "SQL error: " ++ msg)
  \/ (exists n, confirmation 2 = confirmation n /\ is_select ascii_upper DELETE_ALL = false)
  \/ (exists rest, confirmation 2 = 91 :: rest /\ is_select ascii_upper DELETE_ALL = true).
Proof.
  apply (run_sql_query_answer_shape demo_engine ascii_upper DELETE_ALL ready_world).
  vm_compute. reflexivity.
Defined.

Lemma lstrip_spaces ws s : forallb isspace ws = true -> lstrip (ws ++ s) = lstrip s.
Proof.
  induction ws as [|c ws IH]; [reflexivity|]. simpl.
  intros [Hc Hws]%andb_prop. rewrite Hc. exact (IH Hws).
Qed.

(** X13. Whitespace in front of a statement does not change whether the
    executor takes it for a select. *)
Theorem is_select_leading_whitespace (upper : pystr -> pystr) (ws query : pystr) :
  forallb isspace ws = true ->
  is_select upper (ws ++ query) = is_select upper query.
Proof. intros H. unfold is_select. rewrite (lstrip_spaces _ _ H). reflexivity. Qed.

Lemma is_select_leading_whitespace_witness :
  is_select ascii_upper ([NEWLINE; SPACE; TAB] ++ lit "select 1")
  = is_select ascii_upper (lit "select 1").
Proof. apply is_select_leading_whitespace. vm_compute. reflexivity. Defined.

(** ** Dataset Importer *)

(** The importer, by the source file, the store and what the engine does. *)
Lemma import_csv_spec eng csv_file w :
  import_csv eng csv_file w =
  match csv_files w !! path_str csv_file with
  | None => (Return false, add_log ERROR (lit "CSV not found: " ++ path_str csv_file) w)
  | Some (Unopenable e) => import_caught e w
  | Some (Text items) =>
      match next items with
      | Raise e => import_caught e (connected w)
      | Return (first, rdr) =>
          match opened_store w with
          | Unusable msg => import_caught (sqlite3_Error msg) (connected w)
          | Database db0 =>
              let '(db1, n0, failure) :=
                executescript eng db0 (create_script (map _clean first)) in
              let w1 := set_database (Database db1) (connected w) in
              match failure with
              | Some e => import_caught e w1
              | None =>
                  match conn_executemany eng
                          {| conn_file := Database db1; total_changes := 0 + n0 |}
                          (insert_statement (map _clean first)) rdr with
                  | Raise e => import_caught e w1
                  | Return c =>
                      (Return true,
                       add_log INFO (imported_message csv_file (total_changes c))
                         (committed c w1))
                  end
              end
          end
      end
  end.
Proof.
  unfold import_csv. destruct (csv_files w !! path_str csv_file) as [[items|e]|];
    [| destruct e; reflexivity | reflexivity].
  unfold try_except, with_connection, mbind, M_bind, connect, lift, open.
  unfold connected, opened_store.
  destruct (next items) as [[first rdr]|e] eqn:En;
    [|destruct (database w) as [f|]; destruct e; reflexivity].
  unfold create_script, insert_statement, column_list.
  unfold conn_executescript, mbind, M_bind, modify, raise, lift, mret, M_ret.
  destruct (database w) as [f|] eqn:E; cbn [conn_file total_changes].
  - destruct f as [db0|msg]; [|reflexivity].
    destruct (executescript eng db0 _) as [[db1 n0] failure].
    destruct failure as [e|]; [destruct e; reflexivity|].
    destruct (conn_executemany _ _ _ _) as [c|e]; [|destruct e; reflexivity].
    unfold commit, modify, logging, modify, committed, imported_message.
    destruct (conn_file c); reflexivity.
  - destruct (executescript eng [] _) as [[db1 n0] failure].
    destruct failure as [e|]; [destruct e; reflexivity|].
    destruct (conn_executemany _ _ _ _) as [c|e]; [|destruct e; reflexivity].
    unfold commit, modify, logging, modify, committed, imported_message.
    destruct (conn_file c); reflexivity.
Qed.

Lemma import_caught_cases e w :
  (exists msg, import_caught e w
               = (Return false, add_log ERROR (lit "Import failed: " ++ msg) w)
               /\ (e = csv_Error msg \/ e = sqlite3_Error msg))
  \/ (import_caught e w = (Raise e, w)
      /\ (forall msg, e <> csv_Error msg) /\ (forall msg, e <> sqlite3_Error msg)).
Proof. destruct e; simpl; eauto 6; right; split_and!; try reflexivity; discriminate. Qed.

(** What the importer leaves behind, whatever happens. *)
Lemma import_csv_outcome eng csv_file w :
  let out := import_csv eng csv_file w in
  csv_files out.2 = csv_files w
  /\ stdout out.2 = stdout w
  /\ requests out.2 = requests w
  /\ match out.1 with
     | Return true => exists msg, last (log out.2) = Some (INFO, msg)
     | Return false => exists msg, last (log out.2) = Some (ERROR, msg)
     | Raise e =>
         (forall msg, e <> csv_Error msg) /\ (forall msg, e <> sqlite3_Error msg)
         /\ log out.2 = log w
     end
  /\ match csv_files w !! path_str csv_file with
     | Some (Text _) => database out.2 <> None
     | _ => database out.2 = database w
     end.
Proof.
  assert (forall e w0,
    csv_files w0 = csv_files w -> stdout w0 = stdout w -> requests w0 = requests w ->
    log w0 = log w ->
    let out := import_caught e w0 in
    csv_files out.2 = csv_files w /\ stdout out.2 = stdout w
    /\ requests out.2 = requests w
    /\ match out.1 with
       | Return true => exists msg, last (log out.2) = Some (INFO, msg)
       | Return false => exists msg, last (log out.2) = Some (ERROR, msg)
       | Raise e =>
           (forall msg, e <> csv_Error msg) /\ (forall msg, e <> sqlite3_Error msg)
           /\ log out.2 = log w
       end
    /\ database out.2 = database w0) as Hc.
  { intros e w0 H1 H2 H3 H4. simpl.
    destruct (import_caught_cases e w0) as [(msg & -> & _)|(-> & Hn1 & Hn2)]; simpl.
    - split_and!; try done. eexists. apply last_snoc.
    - split_and!; done. }
  assert (database (connected w) <> None /\ csv_files (connected w) = csv_files w
          /\ stdout (connected w) = stdout w /\ requests (connected w) = requests w
          /\ log (connected w) = log w) as (Hd0 & Hk1 & Hk2 & Hk3 & Hk4).
  { unfold connected. destruct (database w) eqn:E; simpl; split_and!; congruence. }
  simpl. rewrite import_csv_spec.
  destruct (csv_files w !! path_str csv_file) as [[items|e]|] eqn:Ef.
  - destruct (next items) as [[first rdr]|e].
    + destruct (opened_store w) as [db0|msg].
      * destruct (executescript eng db0 _) as [[db1 n0] failure]. cbv zeta.
        destruct failure as [e|].
        { destruct (Hc e (set_database (Database db1) (connected w)))
            as (H1 & H2 & H3 & H4 & H5); try done;
            split_and!; try done; rewrite ?H5; try discriminate; done. }
        destruct (conn_executemany _ _ _ _) as [c|e].
        { simpl. unfold committed. destruct (conn_file c); simpl;
            split_and!; try done; try (eexists; apply last_snoc). }
        destruct (Hc e (set_database (Database db1) (connected w)))
          as (H1 & H2 & H3 & H4 & H5); try done;
          split_and!; try done; rewrite ?H5; try discriminate; done.
      * destruct (Hc (sqlite3_Error msg) (connected w)) as (H1 & H2 & H3 & H4 & H5);
          try done; split_and!; try done; rewrite ?H5; done.
    + destruct (Hc e (connected w)) as (H1 & H2 & H3 & H4 & H5); try done;
        split_and!; try done; rewrite ?H5; done.
  - destruct (Hc e w) as (H1 & H2 & H3 & H4 & H5); done.
  - simpl. split_and!; try done. eexists. apply last_snoc.
Qed.

(** X14. The importer never lets a [csv.Error] or an [sqlite3.Error] out;
    when it raises, the exception is of another class and nothing was
    logged. *)
Theorem import_csv_raises_only_uncaught
  (eng : Engine) (csv_file : Path) (w : World) (e : exn) :
  (import_csv eng csv_file w).1 = Raise e ->
  (forall msg, e <> csv_Error msg) /\ (forall msg, e <> sqlite3_Error msg)
  /\ log (import_csv eng csv_file w).2 = log w.
Proof.
  intros H. pose proof (import_csv_outcome eng csv_file w) as (_ & _ & _ & Ho & _).
  simpl in Ho. rewrite H in Ho. exact Ho.
Qed.

Lemma import_csv_raises_only_uncaught_witness :
  log (import_csv demo_engine empty_csv empty_csv_world).2 = log empty_csv_world.
Proof.
  apply (import_csv_raises_only_uncaught demo_engine empty_csv empty_csv_world
           StopIteration).
  vm_compute. reflexivity.
Defined.

(** X15. When the importer returns, the last record of the log tells the
    outcome: an INFO record after a success, an ERROR record after a
    failure. *)
Theorem import_csv_logs_outcome
  (eng : Engine) (csv_file : Path) (w : World) (ok : bool) :
  (import_csv eng csv_file w).1 = Return ok ->
  exists msg,
    last (log (import_csv eng csv_file w).2) = Some (if ok then INFO else ERROR, msg).
Proof.
  intros H. pose proof (import_csv_outcome eng csv_file w) as (_ & _ & _ & Ho & _).
  simpl in Ho. rewrite H in Ho. destruct ok; exact Ho.
Qed.

Lemma import_csv_logs_outcome_witness :
  exists msg,
    last (log (import_csv scores_engine scores_csv scores_world).2) = Some (INFO, msg).
Proof.
  apply (import_csv_logs_outcome scores_engine scores_csv scores_world true).
  vm_compute. reflexivity.
Defined.


(** X17. When the script that recreates the table ran and the batched insert
    then fails with a [csv.Error] or an [sqlite3.Error], the importer
    returns false and the store file holds the database the script left:
    the new table stays, the rows inserted before the failure do not. *)
Theorem import_csv_insert_failure
  (eng : Engine) (csv_file : Path) (w : World)
  (first : list pystr) (rdr : list rdr_item) (db0 db1 : Db) (n0 : nat)
  (e : exn) (msg : pystr) :
  csv_files w !! path_str csv_file = Some (Text (Yield first :: rdr)) ->
  opened_store w = Database db0 ->
  executescript eng db0 (create_script (map _clean first)) = (db1, n0, None) ->
  conn_executemany eng {| conn_file := Database db1; total_changes := n0 |}
    (insert_statement (map _clean first)) rdr = Raise e ->
  e = csv_Error msg \/ e = sqlite3_Error msg ->
  import_csv eng csv_file w
  = (Return false,
     add_log ERROR (lit "Import failed: " ++ msg) (set_database (Database db1) w)).
Proof.
  intros Hf Hs Hx Hm He. rewrite import_csv_spec, Hf. simpl next. cbv iota.
  rewrite Hs, Hx. cbv zeta iota. change (0 + n0)%nat with n0. rewrite Hm.
  unfold connected. destruct He as [-> | ->]; destruct (database w); reflexivity.
Qed.

Lemma import_csv_insert_failure_witness :
  import_csv scores_engine scores_csv short_row_world
  = (Return false,
     add_log ERROR (lit "Import failed: " ++ bindings_message 2 1)
       (set_database (Database [TableObj TABLE NAME_SCORE []]) short_row_world)).
Proof.
  apply (import_csv_insert_failure scores_engine scores_csv short_row_world
           [lit "name"; lit "score"] [Yield [lit "a"; lit "1"]; Yield [lit "b"]]
           demo_db [TableObj TABLE NAME_SCORE []] 0
           (sqlite3_Error (bindings_message 2 1)));
    try (vm_compute; reflexivity).
  right. reflexivity.
Defined.

Lemma conn_executemany_all eng sql (n : nat) (data : list (list pystr)) :
  (forall db params,
     has_table db TABLE = true -> length params = n ->
     exists db' description fetched,
       execute eng db sql params = ExecOk db' description fetched 1
       /\ has_table db' TABLE = true) ->
  Forall (fun r => length r = n) data ->
  forall db changes,
    has_table db TABLE = true ->
    exists db',
      conn_executemany eng {| conn_file := Database db; total_changes := changes |}
        sql (map Yield data)
      = Return {| conn_file := Database db';
                  total_changes := changes + length data |}
      /\ has_table db' TABLE = true.
Proof.
  intros Hx Hall. induction Hall as [|r data Hr _ IH]; intros db changes Hdb.
  - exists db. simpl. rewrite Nat.add_0_r. auto.
  - simpl. unfold conn_execute. simpl.
    destruct (Hx db (map VText r)) as (db1 & d & f & -> & Hdb1);
      [exact Hdb | by rewrite length_map|].
    destruct (IH db1 (changes + 1)%nat Hdb1) as (db' & -> & Hdb').
    exists db'. split; [|exact Hdb']. do 2 f_equal. lia.
Qed.

(** X18. Importing a file whose records all have as many fields as the
    header, with an engine that runs the script (leaving the table in the
    catalog) and accepts every insert as one changed row, returns true,
    logs the number of data records added to what the script changed, and
    leaves a store on which the readiness check answers true. *)
Theorem import_csv_well_formed
  (eng : Engine) (csv_file : Path) (w : World)
  (first : list pystr) (data : list (list pystr)) (db0 db1 : Db) (n0 : nat) :
  csv_files w !! path_str csv_file = Some (Text (Yield first :: map Yield data)) ->
  opened_store w = Database db0 ->
  executescript eng db0 (create_script (map _clean first)) = (db1, n0, None) ->
  has_table db1 TABLE = true ->
  (forall db params,
     has_table db TABLE = true -> length params = length first ->
     exists db' description fetched,
       execute eng db (insert_statement (map _clean first)) params
       = ExecOk db' description fetched 1
       /\ has_table db' TABLE = true) ->
  Forall (fun r => length r = length first) data ->
  exists dbN,
    import_csv eng csv_file w
    = (Return true,
       add_log INFO (imported_message csv_file (n0 + length data))
         (set_database (Database dbN) w))
    /\ (db_ready eng (import_csv eng csv_file w).2).1 = Return true.
Proof.
  intros Hf Hs Hx Hdb1 Hins Hall.
  destruct (conn_executemany_all eng _ _ data Hins Hall db1 n0 Hdb1) as (dbN & Hm & HdbN).
  exists dbN. rewrite import_csv_spec, Hf. simpl next. cbv iota.
  rewrite Hs, Hx. cbv zeta iota. change (0 + n0)%nat with n0. rewrite Hm.
  unfold committed, connected. simpl conn_file. simpl total_changes.
  split.
  - destruct (database w); reflexivity.
  - rewrite db_ready_spec. destruct (database w); simpl; rewrite HdbN; reflexivity.
Qed.

Lemma has_table_append_row name r db :
  has_table (append_row name r db) TABLE = has_table db TABLE.
Proof.
  unfold has_table, append_row. induction db as [|o db IH]; [reflexivity|].
  simpl. rewrite IH. f_equal.
  destruct o as [n columns rows|]; [|reflexivity].
  destruct (decide (n = name)); reflexivity.
Qed.

Lemma import_csv_well_formed_witness :
  exists dbN,
    import_csv scores_engine scores_csv scores_world
    = (Return true,
       add_log INFO (imported_message scores_csv (0 + 3))
         (set_database (Database dbN) scores_world))
    /\ (db_ready scores_engine (import_csv scores_engine scores_csv scores_world).2).1
       = Return true.
Proof.
  apply (import_csv_well_formed scores_engine scores_csv scores_world
           [lit " name"; lit "score "]
           [[lit "a"; lit "1"]; [lit "b"; lit "2"]; [lit "c"; lit "3"]]
           [] [TableObj TABLE NAME_SCORE []] 0);
    try (vm_compute; reflexivity).
  - intros db params Hdb Hlen.
    change (execute scores_engine) with scores_execute. unfold scores_execute.
    rewrite decide_False by (intros H; vm_compute in H; discriminate H).
    rewrite decide_True by (vm_compute; reflexivity).
    rewrite Hdb. destruct params as [|a [|b [|c params]]]; try discriminate Hlen.
    do 3 eexists. split; [reflexivity|]. by rewrite has_table_append_row.
  - repeat constructor.
Defined.

(** ** Tool-Mediated Chat Loop *)

(** X19. When the tool invocations of a turn all return, the transcript
    grows by one tool message per invocation, in the order of the
    invocations, each carrying the identifier of its invocation. *)
Theorem run_tool_calls_tags
  (eng : Engine) (upper : pystr -> pystr) (calls : list ToolCall)
  (msgs msgs' : list Message) (w w' : World) :
  run_tool_calls eng upper calls msgs w = (Return tt, msgs', w') ->
  exists results,
    length results = length calls
    /\ msgs' = msgs ++ zip_with tool_message calls results.
Proof.
  revert msgs w. induction calls as [|call calls IH]; intros msgs w; simpl.
  - intros [= <- <-]. exists []. by rewrite app_nil_r.
  - destruct (call_query call) as [sql|]; [|discriminate].
    destruct (run_sql_query eng upper sql w) as [[res|e] w1]; [|discriminate].
    intros (results & Hlen & ->)%IH. exists (res :: results).
    split; [simpl; by rewrite Hlen|]. by rewrite <- app_assoc.
Qed.

Lemma run_tool_calls_tags_witness :
  exists results,
    length results = length mixed_calls
    /\ (run_tool_calls demo_engine ascii_upper mixed_calls [] ready_world).1.2
       = [] ++ zip_with tool_message mixed_calls results.
Proof.
  destruct (run_tool_calls demo_engine ascii_upper mixed_calls [] ready_world)
    as [[r msgs'] w'] eqn:E.
  cbn [fst snd].
  apply (run_tool_calls_tags demo_engine ascii_upper mixed_calls [] msgs' ready_world w').
  rewrite E. f_equal. f_equal. vm_compute in E. by injection E as <- _ _.
Defined.

Lemma run_tool_calls_prefix eng upper calls msgs w :
  msgs `prefix_of` (run_tool_calls eng upper calls msgs w).1.2.
Proof.
  revert msgs w. induction calls as [|call calls IH]; intros msgs w; simpl; [done|].
  destruct (call_query call) as [sql|]; [|done].
  destruct (run_sql_query eng upper sql w) as [[res|e] w1]; [|done].
  etransitivity; [|apply IH]. by apply prefix_app_r.
Qed.

Lemma chat_rounds_transcript eng upper (agent : Agent) n :
  forall msgs w,
  let out := chat_rounds eng upper agent n msgs w in
  msgs `prefix_of` out.1.2
  /\ exists sent,
       requests out.2 = requests w ++ sent
       /\ Forall (fun t => t `prefix_of` out.1.2) sent
       /\ (n <> O -> head sent = Some msgs).
Proof.
  induction n as [|n IH]; intros msgs w; simpl.
  - split; [done|]. exists []. by rewrite app_nil_r.
  - destruct (agent msgs) as [msg|e] eqn:Ea; simpl.
    + destruct (tool_calls msg) as [calls|] eqn:Et.
      * pose proof (run_tool_calls_prefix eng upper calls (msgs ++ [AssistantMsg msg])
                      (add_request msgs w)) as Hp.
        pose proof (run_tool_calls_spec eng upper calls (msgs ++ [AssistantMsg msg])
                      (add_request msgs w)) as Hs.
        destruct (run_tool_calls eng upper calls (msgs ++ [AssistantMsg msg])
                    (add_request msgs w)) as [[r1 msgs1] w1].
        specialize (Hs _ _ _ eq_refl) as (_ & Hq & _). simpl in Hp, Hq.
        assert (msgs `prefix_of` msgs1) as Hp'
          by (etransitivity; [|exact Hp]; by apply prefix_app_r).
        destruct r1 as [[]|e]; simpl.
        -- specialize (IH msgs1 w1). simpl in IH. destruct IH as (Hpre & sent & Hr & Hall & _).
           split; [by etransitivity|]. exists (msgs :: sent).
           split_and!; [|constructor; [by etransitivity | exact Hall] | done].
           rewrite Hr, Hq. by rewrite <- app_assoc.
        -- split; [done|]. exists [msgs]. split_and!; [by rewrite Hq | by constructor | done].
      * assert (msgs `prefix_of` msgs ++ [AssistantMsg msg]) by (by apply prefix_app_r).
        destruct (content msg); simpl;
          (split; [done|]); exists [msgs]; split_and!; try done; by constructor.
    + split; [done|]. exists [msgs]. split_and!; try done. by constructor.
Qed.

(** X20. The transcript of a chat invocation only grows: it starts with the
    system instruction and the user's question, the first request to the
    agent is that seed, and every request sent is a prefix of the transcript
    the invocation ends on. *)
Theorem chat_transcript_append_only
  (eng : Engine) (upper : pystr -> pystr) (agent : Agent) (api_key prompt : pystr)
  (w : World) :
  api_key <> [] ->
  let out := chat_run eng upper agent api_key prompt w in
  seed prompt `prefix_of` out.1.2
  /\ exists sent,
       requests out.2 = requests w ++ sent
       /\ head sent = Some (seed prompt)
       /\ Forall (fun t => t `prefix_of` out.1.2) sent.
Proof.
  intros Hk. unfold chat_run. destruct api_key as [|k key]; [contradiction|].
  destruct (chat_rounds_transcript eng upper agent 5 (seed prompt) w)
    as (Hp & sent & Hr & Hall & Hh).
  split; [exact Hp|]. exists sent. split_and!; [exact Hr | by apply Hh | exact Hall].
Qed.

Lemma chat_transcript_append_only_witness :
  seed (lit "hi") `prefix_of`
    (chat_run demo_engine ascii_upper eager_agent (lit "key") (lit "hi") ready_world).1.2.
Proof.
  apply (chat_transcript_append_only demo_engine ascii_upper eager_agent (lit "key")
           (lit "hi") ready_world).
  discriminate.
Defined.

Lemma chat_rounds_output eng upper (agent : Agent) n :
  forall msgs w,
  let out := chat_rounds eng upper agent n msgs w in
  stdout out.2 = stdout w
  \/ exists m text,
       out.1.1 = Return tt
       /\ last out.1.2 = Some (AssistantMsg m)
       /\ tool_calls m = None
       /\ content m = Some text
       /\ stdout out.2 = stdout w ++ [printed_answer text].
Proof.
  induction n as [|n IH]; intros msgs w; simpl; [by left|].
  destruct (agent msgs) as [msg|e] eqn:Ea; simpl; [|by left].
  destruct (tool_calls msg) as [calls|] eqn:Et.
  - pose proof (run_tool_calls_spec eng upper calls (msgs ++ [AssistantMsg msg])
                  (add_request msgs w)) as Hs.
    destruct (run_tool_calls eng upper calls (msgs ++ [AssistantMsg msg])
                (add_request msgs w)) as [[r1 msgs1] w1].
    specialize (Hs _ _ _ eq_refl) as (Ho & _). simpl in Ho.
    destruct r1 as [[]|e]; simpl; [|by left].
    specialize (IH msgs1 w1). simpl in IH. rewrite Ho in IH. exact IH.
  - destruct (content msg) as [text|] eqn:Ec; simpl; [|by left].
    right. exists msg, text. split_and!; try done. apply last_snoc.
Qed.

(** X21. A chat invocation prints at most once: either the output is as it
    was, or the invocation returned and printed the content of the agent's
    last message, which asked for no tool. *)
Theorem chat_prints_final_answer
  (eng : Engine) (upper : pystr -> pystr) (agent : Agent) (api_key prompt : pystr)
  (w : World) :
  let out := chat_run eng upper agent api_key prompt w in
  stdout out.2 = stdout w
  \/ exists m text,
       out.1.1 = Return tt
       /\ last out.1.2 = Some (AssistantMsg m)
       /\ tool_calls m = None
       /\ content m = Some text
       /\ stdout out.2 = stdout w ++ [printed_answer text].
Proof.
  unfold chat_run. destruct api_key as [|k key]; [by left|].
  apply chat_rounds_output.
Qed.

(** ** Entry Orchestrator *)

Lemma chat_requests_bound eng upper (agent : Agent) api_key prompt w :
  (length (requests (chat eng upper agent api_key prompt w).2)
   <= length (requests w) + 5)%nat.
Proof.
  unfold chat, chat_run. destruct api_key as [|k key]; [simpl; lia|].
  destruct (chat_rounds eng upper agent 5 [SystemMsg PROMPT; UserMsg prompt] w)
    as [[r msgs'] w'] eqn:E.
  apply chat_rounds_spec in E as [H _]. exact H.
Qed.

Lemma repl_unfold eng upper (agent : Agent) api_key lower is_interrupt stdin w :
  repl eng upper agent api_key lower is_interrupt stdin w =
  let w0 := add_stdout (lit "You: ") w in
  match stdin with
  | [] => (Return tt, w0)
  | CtrlC :: _ => (Return tt, w0)
  | Line text :: stdin' =>
      if leaves_repl lower (Line text) then (Return tt, w0)
      else
        match strip text with
        | [] => repl eng upper agent api_key lower is_interrupt stdin' w0
        | _ :: _ =>
            match chat eng upper agent api_key (strip text) w0 with
            | (Return _, w') => repl eng upper agent api_key lower is_interrupt stdin' w'
            | (Raise e, w') =>
                if is_interrupt e then (Return tt, w') else (Raise e, w')
            end
        end
  end.
Proof. destruct stdin as [|[text|] stdin]; reflexivity. Qed.

Lemma repl_requests_bound eng upper (agent : Agent) api_key lower is_interrupt stdin :
  forall w,
  (length (requests (repl eng upper agent api_key lower is_interrupt stdin w).2)
   <= length (requests w) + 5 * length stdin)%nat.
Proof.
  induction stdin as [|ev stdin IH]; intros w; rewrite repl_unfold; cbv zeta.
  - simpl. lia.
  - rewrite length_cons.
    assert (requests (add_stdout (lit "You: ") w) = requests w) as Hw by reflexivity.
    destruct ev as [text|]; [|cbn [snd]; rewrite Hw; lia].
    destruct (leaves_repl lower (Line text)); [cbn [snd]; rewrite Hw; lia|].
    destruct (strip text) as [|c line] eqn:El.
    + specialize (IH (add_stdout (lit "You: ") w)). rewrite Hw in IH. lia.
    + pose proof (chat_requests_bound eng upper agent api_key (c :: line)
                    (add_stdout (lit "You: ") w)) as Hc. rewrite Hw in Hc.
      destruct (chat eng upper agent api_key (c :: line) (add_stdout (lit "You: ") w))
        as [[[]|e] w1]; cbn [snd] in Hc.
      * specialize (IH w1). lia.
      * destruct (is_interrupt e); cbn [snd]; lia.
Qed.

(** The world [main] reaches before it dispatches, when the store is not
    ready. *)
Lemma db_ready_requests eng w :
  requests (db_ready eng w).2 = requests w /\ stdout (db_ready eng w).2 = stdout w.
Proof.
  rewrite db_ready_spec. destruct (database w) as [[db|msg]|]; split; reflexivity.
Qed.

Lemma db_ready_returns eng w : exists b, (db_ready eng w).1 = Return b.
Proof.
  rewrite db_ready_spec. destruct (database w) as [[db|msg]|]; eauto.
Qed.

(** X22. [main] sends at most 5 requests to the agent when it is given a
    question, and at most 5 for each event on the standard input when it
    reads its questions there. *)
Theorem main_requests_bound
  (eng : Engine) (upper : pystr -> pystr) (agent : Agent) (api_key : pystr)
  (lower : pystr -> pystr) (is_interrupt : exn -> bool) (DEFAULT_CSV : Path)
  (prompt : list pystr) (stdin : list input_event) (w : World) :
  (length (requests (main eng upper agent api_key lower is_interrupt DEFAULT_CSV
                       prompt stdin w).2)
   <= length (requests w)
      + match join (lit " ") prompt with
        | [] => 5 * length stdin
        | _ :: _ => 5
        end)%nat.
Proof.
  unfold main, mbind, M_bind.
  pose proof (db_ready_requests eng w) as [Hq _].
  destruct (db_ready_returns eng w) as [ready Hr].
  destruct (db_ready eng w) as [r0 w0]. simpl in Hq, Hr. subst r0.
  assert (forall w1, requests w1 = requests w ->
    (length (requests
       ((let text := match prompt with [] => [] | _ :: _ => join (lit " ") prompt end in
         match text with
         | _ :: _ => chat eng upper agent api_key text
         | [] => fun w2 =>
             match modify (add_stdout BANNER) w2 with
             | (Return a, w') => repl eng upper agent api_key lower is_interrupt stdin w'
             | (Raise e, w') => (Raise e, w')
             end
         end) w1).2)
     <= length (requests w)
        + match join (lit " ") prompt with
          | [] => 5 * length stdin
          | _ :: _ => 5
          end)%nat) as Hgo.
  { intros w1 H1. cbv zeta.
    assert (match prompt with [] => [] | _ :: _ => join (lit " ") prompt end
            = join (lit " ") prompt) as -> by (destruct prompt; reflexivity).
    destruct (join (lit " ") prompt) as [|c text].
    - unfold modify.
      pose proof (repl_requests_bound eng upper agent api_key lower is_interrupt stdin
                    (add_stdout BANNER w1)) as Hb.
      simpl in Hb. rewrite H1 in Hb. exact Hb.
    - pose proof (chat_requests_bound eng upper agent api_key (c :: text) w1) as Hb.
      rewrite H1 in Hb. exact Hb. }
  destruct ready.
  - unfold mret, M_ret. simpl negb. cbv iota. apply Hgo. exact Hq.
  - unfold logging, modify.
    pose proof (import_csv_outcome eng DEFAULT_CSV
                  (add_log INFO (lit "Database missing; importing " ++ path_str DEFAULT_CSV)
                     w0)) as (_ & _ & Hi & _).
    destruct (import_csv eng DEFAULT_CSV _) as [[ok|e] w1]; simpl in Hi.
    + destruct ok; simpl negb; cbv iota.
      * apply Hgo. congruence.
      * simpl. rewrite Hi, Hq. lia.
    + simpl. rewrite Hi, Hq. lia.
Qed.

(** X23. When the store is not ready and the import fails, [main] logs that
    it cannot continue and returns: no request is sent to the agent and
    nothing is printed, whatever question or input it was given. *)
Theorem main_import_failure_aborts
  (eng : Engine) (upper : pystr -> pystr) (agent : Agent) (api_key : pystr)
  (lower : pystr -> pystr) (is_interrupt : exn -> bool) (DEFAULT_CSV : Path)
  (prompt : list pystr) (stdin : list input_event) (w : World) :
  (db_ready eng w).1 = Return false ->
  (import_csv eng DEFAULT_CSV
     (add_log INFO (lit "Database missing; importing " ++ path_str DEFAULT_CSV)
        (db_ready eng w).2)).1 = Return false ->
  let out := main eng upper agent api_key lower is_interrupt DEFAULT_CSV prompt stdin w in
  out.1 = Return tt
  /\ last (log out.2) = Some (ERROR, lit "Cannot continue without database/table.")
  /\ requests out.2 = requests w
  /\ stdout out.2 = stdout w.
Proof.
  intros Hr Hi. unfold main, mbind, M_bind. simpl.
  pose proof (db_ready_requests eng w) as [Hq Hs].
  destruct (db_ready eng w) as [r0 w0]. simpl in *. subst r0.
  unfold logging, modify.
  pose proof (import_csv_outcome eng DEFAULT_CSV
                (add_log INFO (lit "Database missing; importing " ++ path_str DEFAULT_CSV)
                   w0)) as (_ & Ho & Hreq & _).
  destruct (import_csv eng DEFAULT_CSV _) as [r1 w1]. simpl in *. subst r1.
  simpl. split_and!; [reflexivity | apply last_snoc | congruence | congruence].
Qed.

Lemma main_import_failure_aborts_witness :
  let out := main demo_engine ascii_upper eager_agent (lit "key") ascii_lower
               no_interrupt empty_csv [lit "how"; lit "many"] [] fresh_world in
  out.1 = Return tt
  /\ last (log out.2) = Some (ERROR, lit "Cannot continue without database/table.")
  /\ requests out.2 = requests fresh_world
  /\ stdout out.2 = stdout fresh_world.
Proof.
  apply (main_import_failure_aborts demo_engine ascii_upper eager_agent (lit "key")
           ascii_lower no_interrupt empty_csv [lit "how"; lit "many"] [] fresh_world);
    vm_compute; reflexivity.
Defined.

(** X24. The interactive loop reads nothing after an interrupt or after a
    line that is [exit] or [quit] once trimmed and lowercased: whatever
    follows on the input, it ends as it does at the end of input. *)
Theorem repl_stops
  (eng : Engine) (upper : pystr -> pystr) (agent : Agent) (api_key : pystr)
  (lower : pystr -> pystr) (is_interrupt : exn -> bool)
  (before : list input_event) (ev : input_event) (rest : list input_event) (w : World) :
  leaves_repl lower ev = true ->
  repl eng upper agent api_key lower is_interrupt (before ++ ev :: rest) w
  = repl eng upper agent api_key lower is_interrupt before w.
Proof.
  intros Hev. revert w. induction before as [|x before IH]; intros w.
  - rewrite (repl_unfold _ _ _ _ _ _ ([] ++ ev :: rest)), (repl_unfold _ _ _ _ _ _ []).
    cbv zeta. simpl app. destruct ev as [text|]; [|reflexivity].
    rewrite Hev. reflexivity.
  - rewrite (repl_unfold _ _ _ _ _ _ ((x :: before) ++ ev :: rest)),
            (repl_unfold _ _ _ _ _ _ (x :: before)).
    cbv zeta. rewrite <- app_comm_cons. destruct x as [text|]; [|reflexivity].
    destruct (leaves_repl lower (Line text)); [reflexivity|].
    destruct (strip text) as [|c line]; [apply IH|].
    destruct (chat eng upper agent api_key (c :: line) (add_stdout (lit "You: ") w))
      as [[[]|e] w1]; [apply IH | reflexivity].
Qed.

Lemma repl_stops_witness :
  repl demo_engine ascii_upper direct_agent (lit "key") ascii_lower no_interrupt
    ([Line (lit "how many rows?")] ++ Line (lit "  Quit ") :: [Line (lit "more")])
    ready_world
  = repl demo_engine ascii_upper direct_agent (lit "key") ascii_lower no_interrupt
      [Line (lit "how many rows?")] ready_world.
Proof. apply repl_stops. vm_compute. reflexivity. Defined.
